(** * Data association (mrpt::slam) and PDF entropy (mrpt::math)

    A shallow embedding of
    - [src/libs/slam/include/mrpt/slam/data_association.h]: the result record
      [TDataAssociationResults], its constructor and [clear()], and the two
      entry points [data_association_full_covariance] and
      [data_association_independent_predictions];
    - [src/libs/math/include/mrpt/math/CProbabilityDensityFunction.h]:
      [getCovarianceEntropy].

    Real numbers of the association engine are exact rationals [Q]; the
    linear algebra (innovation covariance inversion, determinant) is an exact
    LDL^T elimination; the chi-square inverse quantile and the natural
    logarithm are parameters of the development.  [getCovarianceEntropy] is
    modelled on IEEE-754 binary64 with Rocq's primitive floats. *)

From Stdlib Require Import List Arith Lia Bool QArith Sorted.
From Stdlib Require Import PrimFloat FloatOps FloatAxioms SpecFloat.
Import ListNotations.

(* ------------------------------------------------------------------ *)
(** ** [mrpt::math::CMatrixDynamic<T>]: a row-major dynamic matrix. *)

Record CMatrixDynamic (T : Type) := mkMatrix {
  mrows : nat;
  mcols : nat;
  mdata : list (list T)
}.
Arguments mkMatrix {T}.
Arguments mrows {T}.
Arguments mcols {T}.
Arguments mdata {T}.

Definition CMatrixDouble := CMatrixDynamic Q.
Definition CMatrixBool := CMatrixDynamic bool.

(** [resize n d l]: the first [n] elements of [l], padded with [d]. *)
Definition resize {A} (n : nat) (d : A) (l : list A) : list A :=
  firstn n l ++ repeat d (n - length l).

(** [CMatrixDynamic::setSize(r, c)]: new cells are default-initialised. *)
Definition setSize {T} (d : T) (r c : nat) (m : CMatrixDynamic T)
  : CMatrixDynamic T :=
  mkMatrix r c (resize r (repeat d c) (map (resize c d) (mdata m))).

(** Read access [m(r, c)]. *)
Definition mat_get {T} (d : T) (m : CMatrixDynamic T) (r c : nat) : T :=
  nth c (nth r (mdata m) []) d.

(** The matrix has the shape it declares. *)
Definition mat_wf {T} (m : CMatrixDynamic T) : bool :=
  (length (mdata m) =? mrows m)
  && forallb (fun row => length row =? mcols m) (mdata m).

(* ------------------------------------------------------------------ *)
(** ** [TDataAssociationResults] *)

(** [std::map<observation_index_t, prediction_index_t>] is modelled by the
    list of its entries in iteration (increasing key) order. *)
Record TDataAssociationResults := mkResults {
  associations : list (nat * nat);
  distance : Q;
  indiv_distances : CMatrixDouble;
  indiv_compatibility : CMatrixBool;
  indiv_compatibility_counts : list nat;
  nNodesExploredInJCBB : nat
}.

(** The default constructor: [associations()], [indiv_distances(0, 0)],
    [indiv_compatibility(0, 0)], [indiv_compatibility_counts()], and the
    member initialisers [distance{0}], [nNodesExploredInJCBB{0}]. *)
Definition TDataAssociationResults_default : TDataAssociationResults :=
  mkResults [] 0 (mkMatrix 0 0 []) (mkMatrix 0 0 []) [] 0.

(** [TDataAssociationResults::clear()]. *)
Definition clear (r : TDataAssociationResults) : TDataAssociationResults :=
  mkResults []
    0
    (setSize 0 0 0 (indiv_distances r))
    (setSize false 0 0 (indiv_compatibility r))
    []
    0.

(* ------------------------------------------------------------------ *)
(** ** [CProbabilityDensityFunction::getCovarianceEntropy] on binary64 *)

Module Entropy.
Local Open Scope float_scope.

(** [std::max(a, b)] is [(a < b) ? b : a]. *)
Definition std_max (a b : float) : float := if a <? b then b else a.

(** [std::numeric_limits<double>::epsilon()] = 2^-52. *)
Definition epsilon : float := 2.220446049250313080847263336181640625e-16.

(** [static const double ln_2PI = 1.8378770664093454835606594728112], rounded
    to the nearest double as the C++ compiler does. *)
Definition ln_2PI : float := 0x1.d67f1c864beb5p+0.

Section Entropy.
(** [log] of the C library; [STATE_LEN] as a double. *)
Variable log : float -> float.

(** The argument handed to [log]. *)
Definition log_argument (det : float) : float := std_max det epsilon.

Definition getCovarianceEntropy (STATE_LEN : float) (det : float) : float :=
  0.5 * (STATE_LEN + STATE_LEN * ln_2PI + log (log_argument det)).
End Entropy.
End Entropy.

(* ------------------------------------------------------------------ *)
(** ** Dense linear algebra over the rationals *)

Open Scope Q_scope.

(** Pointwise combination of two lists (the shorter one bounds the result). *)
Fixpoint zipWith {A B C} (f : A -> B -> C) (l1 : list A) (l2 : list B)
  : list C :=
  match l1, l2 with
  | x :: l1', y :: l2' => f x y :: zipWith f l1' l2'
  | _, _ => []
  end.

(** [ldlt n S v]: elimination of the symmetric [n x n] matrix [S] pivot by
    pivot (an LDL^T / Cholesky factorisation).  It returns
    [(v^T S^-1 v, det S)], or [None] as soon as a pivot is not positive,
    i.e. exactly when [S] is not positive-definite. *)
Fixpoint ldlt (n : nat) (S : list (list Q)) (v : list Q) : option (Q * Q) :=
  match n with
  | O => Some (0, 1)
  | Datatypes.S n' =>
      match S, v with
      | (a :: row) :: rest, v0 :: vs =>
          if Qle_bool a 0 then None
          else
            let col := map (fun r => hd 0 r) rest in
            let S' := zipWith (fun c r =>
                        zipWith (fun rk sk => sk - c * rk / a) row (tl r))
                        col rest in
            let v' := zipWith (fun c vk => vk - c * v0 / a) col vs in
            match ldlt n' S' v' with
            | Some (d2, det) => Some (v0 * v0 / a + d2, a * det)
            | None => None
            end
      | _, _ => None
      end
  end.

(** The positive-definiteness test (Cholesky succeeds). *)
Definition is_pd (S : list (list Q)) : bool :=
  match ldlt (length S) S (repeat 0 (length S)) with
  | Some _ => true
  | None => false
  end.

(* ------------------------------------------------------------------ *)
(** ** Data association *)

(** [enum TDataAssociationMethod]. *)
Inductive TDataAssociationMethod := assocNN | assocJCBB.

(** [enum TDataAssociationMetric]. *)
Inductive TDataAssociationMetric := metricMaha | metricML.

(** The two entry points differ in the layout of [Y_predictions_cov]:
    an [N*O x N*O] full covariance ([data_association_full_covariance]) or
    a vertical stack of [N] blocks [O x O]
    ([data_association_independent_predictions]). *)
Inductive TCovarianceLayout := FullCovariance | IndependentPredictions.

(** Modelled from the spec (section 7, error taxonomy): the errors of a
    query.  [InvalidInputError] names the mismatching input;
    [NumericalError j] reports the prediction whose covariance block is not
    positive-definite.  ([ConfigurationError] has no counterpart: the enums
    admit no other value.) *)
Inductive TInvalidInput :=
  BadObservations | BadPredictions | BadCovariance | BadPredictionIDs.
Inductive TDataAssociationError :=
| InvalidInputError (what : TInvalidInput)
| NumericalError (prediction : nat).

(** [ln_2PI], the constant of the matching-likelihood metric. *)
Definition ln_2PI_Q : Q :=
  18378770664093454835606594728112 # 10000000000000000000000000000000.

Definition Qlt_bool (a b : Q) : bool := negb (Qle_bool b a).

(** [isCloser]: a smaller Mahalanobis distance, or a larger likelihood. *)
Definition isCloser (metric : TDataAssociationMetric) (a b : Q) : bool :=
  match metric with
  | metricMaha => Qlt_bool a b
  | metricML => Qlt_bool b a
  end.

Definition row {T} (m : CMatrixDynamic T) (i : nat) : list T :=
  nth i (mdata m) [].

Section DataAssociation.
(** [mrpt::math::chi2inv(P, dim)]: the inverse of the chi-square cumulative
    distribution with [dim] degrees of freedom. *)
Variable chi2inv : Q -> nat -> Q.
(** The natural logarithm. *)
Variable ln : Q -> Q.

(** Modelled from the spec (4.1, CompatibilityMetric): the Mahalanobis
    distance [v^T S^-1 v], or the log matching likelihood
    [-0.5 (O ln(2 pi) + ln|S| + v^T S^-1 v)]; [None] when [S] is not
    positive-definite. *)
Definition pdf_metric (metric : TDataAssociationMetric)
  (v : list Q) (S : list (list Q)) : option Q :=
  match ldlt (length v) S v with
  | None => None
  | Some (d2, det) =>
      Some match metric with
           | metricMaha => d2
           | metricML =>
               - (1 # 2) * (inject_Z (Z.of_nat (length v)) * ln_2PI_Q
                            + ln det + d2)
           end
  end.

(** Modelled from the spec (4.1): the gate of a statistic [s] with [dof]
    degrees of freedom: [s <= chi2inv(quantile, dof)] for Mahalanobis,
    [s >= threshold] for the matching likelihood. *)
Definition passes (metric : TDataAssociationMetric) (chi2quantile : Q)
  (threshold : Q) (dof : nat) (s : Q) : bool :=
  match metric with
  | metricMaha => Qle_bool s (chi2inv chi2quantile dof)
  | metricML => Qle_bool threshold s
  end.

Section Query.
Variable layout : TCovarianceLayout.
Variables Z_observations_mean Y_predictions_mean Y_predictions_cov
  : CMatrixDouble.
Variable metric : TDataAssociationMetric.
Variable chi2quantile : Q.
Variable compatibilityTestMetric : TDataAssociationMetric.
Variable log_ML_compat_test_threshold : Q.

(** [M] observations, [N] predictions, of dimension [O]. *)
Definition nObs : nat := mrows Z_observations_mean.
Definition nPreds : nat := mrows Y_predictions_mean.
Definition obsDim : nat := mcols Z_observations_mean.

(** The [O x O] block [(j1, j2)] of the predictions' covariance. *)
Definition cov_block (j1 j2 : nat) : list (list Q) :=
  match layout with
  | FullCovariance =>
      map (fun r => firstn obsDim (skipn (j2 * obsDim) r))
        (firstn obsDim (skipn (j1 * obsDim) (mdata Y_predictions_cov)))
  | IndependentPredictions =>
      if Nat.eqb j1 j2
      then firstn obsDim (skipn (j1 * obsDim) (mdata Y_predictions_cov))
      else repeat (repeat 0 obsDim) obsDim
  end.

(** Modelled from the spec (4.4, joint test): the joint covariance of the
    chosen predictions [js], assembled from their blocks (the cross blocks
    are zero for independent predictions). *)
Definition joint_cov (js : list nat) : list (list Q) :=
  flat_map (fun ja =>
    map (fun r => flat_map (fun jb => nth r (cov_block ja jb) []) js)
      (seq 0 obsDim)) js.

(** The innovation [v = observation_i - prediction_j.mean]. *)
Definition innovation (i j : nat) : list Q :=
  zipWith Qminus (row Z_observations_mean i) (row Y_predictions_mean j).

(** Modelled from the spec (4.2): the individual statistic of the pair
    (observation [i], prediction [j]) with [metric]. *)
Definition indiv_stat (i j : nat) : option Q :=
  pdf_metric metric (innovation i j) (cov_block j j).

(** A pair whose statistic fails (covariance not positive-definite) is not
    compatible (spec 4.1). *)
Definition indiv_compat (i j : nat) : bool :=
  match indiv_stat i j with
  | Some s => passes metric chi2quantile log_ML_compat_test_threshold obsDim s
  | None => false
  end.

Definition indiv_dist (i j : nat) : Q :=
  match indiv_stat i j with Some s => s | None => 0 end.

(** The individual matrices, laid out as documented on
    [TDataAssociationResults::indiv_distances]: predictions are the row
    indices, observations the column indices. *)
Definition build_indiv_distances : CMatrixDouble :=
  mkMatrix nPreds nObs
    (map (fun j => map (fun i => indiv_dist i j) (seq 0 nObs)) (seq 0 nPreds)).

Definition build_indiv_compatibility : CMatrixBool :=
  mkMatrix nPreds nObs
    (map (fun j => map (fun i => indiv_compat i j) (seq 0 nObs))
       (seq 0 nPreds)).

(** "The sum of each column of indiv_compatibility, that is, the number of
    compatible pairings for each observation." *)
Definition build_indiv_compatibility_counts : list nat :=
  map (fun i => length (filter (fun j => indiv_compat i j) (seq 0 nPreds)))
    (seq 0 nObs).

(** Prediction [j] is already used by the hypothesis [hyp]. *)
Definition claimed (hyp : list (nat * nat)) (j : nat) : bool :=
  existsb (fun p => Nat.eqb (snd p) j) hyp.

(** Modelled from the spec (4.3, NNMatcher): for observation [i], the
    individually compatible prediction not yet claimed with the smallest
    distance (the best likelihood), ties broken by the lowest index. *)
Definition nn_pick (hyp : list (nat * nat)) (i : nat) : option nat :=
  fold_left (fun acc j =>
    if indiv_compat i j && negb (claimed hyp j) then
      match acc with
      | None => Some j
      | Some jb =>
          if isCloser metric (indiv_dist i j) (indiv_dist i jb)
          then Some j else acc
      end
    else acc) (seq 0 nPreds) None.

(** Modelled from the spec (4.3): observations processed in input order,
    no backtracking; [d] observations remain from observation [i]. *)
Fixpoint nn_loop (d i : nat) (hyp : list (nat * nat)) : list (nat * nat) :=
  match d with
  | O => hyp
  | Datatypes.S d' =>
      match nn_pick hyp i with
      | Some j => nn_loop d' (Datatypes.S i) (hyp ++ [(i, j)])
      | None => nn_loop d' (Datatypes.S i) hyp
      end
  end.

Definition nearest_neighbor : list (nat * nat) := nn_loop nObs 0 [].

(** Modelled from the spec (4.4, joint test): the joint statistic of a
    hypothesis (list of pairs (observation, prediction) in observation
    order) over its stacked innovation and joint covariance. *)
Definition joint_stat (m : TDataAssociationMetric) (h : list (nat * nat))
  : option Q :=
  pdf_metric m (flat_map (fun p => innovation (fst p) (snd p)) h)
    (joint_cov (map snd h)).

(** The joint gate, with [k*O] degrees of freedom, using
    [compatibilityTestMetric]; a failed statistic (covariance not
    positive-definite) fails the gate. *)
Definition jointly_compatible (h : list (nat * nat)) : bool :=
  match joint_stat compatibilityTestMetric h with
  | Some s => passes compatibilityTestMetric chi2quantile
                log_ML_compat_test_threshold (length h * obsDim) s
  | None => false
  end.

(** The joint distance (or likelihood) ranking hypotheses. *)
Definition hyp_stat (h : list (nat * nat)) : Q :=
  match joint_stat metric h with Some s => s | None => 0 end.

(** The search state: the incumbent hypothesis, its joint statistic and
    the node counter. *)
Record TJCBBState := mkJCBBState {
  best : list (nat * nat);
  best_stat : Q;
  nodes : nat
}.

(** More pairs wins, then the closer joint statistic. *)
Definition better (h : list (nat * nat)) (st : TJCBBState) : bool :=
  Nat.ltb (length (best st)) (length h)
  || (Nat.eqb (length h) (length (best st))
      && isCloser metric (hyp_stat h) (best_stat st)).

(** Modelled from the spec (4.4, JCBBSearcher): the node for observation
    [i] with partial hypothesis [hyp] and [d] observations left.  Every
    call counts one node.  Each still-unclaimed individually compatible
    prediction is tried in increasing order, then "leave [i] unassigned";
    a branch is pruned when [cardinality + remaining <= best cardinality],
    and a tentative pairing is abandoned when the enlarged hypothesis fails
    the joint gate. *)
Fixpoint jcbb (d i : nat) (hyp : list (nat * nat)) (st : TJCBBState)
  : TJCBBState :=
  let st := mkJCBBState (best st) (best_stat st) (Datatypes.S (nodes st)) in
  match d with
  | O =>
      if better hyp st then mkJCBBState hyp (hyp_stat hyp) (nodes st)
      else st
  | Datatypes.S d' =>
      let st := fold_left (fun st j =>
          if indiv_compat i j && negb (claimed hyp j) then
            let hyp' := hyp ++ [(i, j)] in
            if Nat.leb (length hyp' + d') (length (best st)) then st
            else if jointly_compatible hyp' then
              jcbb d' (Datatypes.S i) hyp' st
            else st
          else st) (seq 0 nPreds) st in
      if Nat.leb (length hyp + d') (length (best st)) then st
      else jcbb d' (Datatypes.S i) hyp st
  end.

Definition jcbb_init : TJCBBState := mkJCBBState [] 0 0.

Definition JCBB : TJCBBState := jcbb nObs 0 [] jcbb_init.

End Query.

(** Modelled from the spec (4.5 and 7, ResultAggregator): input shapes are
    validated up front. *)
Definition check_shapes (layout : TCovarianceLayout)
  (Z Y C : CMatrixDouble) (predictions_IDs : list nat)
  : option TInvalidInput :=
  let N := mrows Y in
  let O := mcols Z in
  if negb (mat_wf Z) then Some BadObservations
  else if negb (mat_wf Y && Nat.eqb (mcols Y) O) then Some BadPredictions
  else if negb (mat_wf C && Nat.eqb (mrows C) (N * O)
                && Nat.eqb (mcols C) (match layout with
                                      | FullCovariance => N * O
                                      | IndependentPredictions => O
                                      end))
  then Some BadCovariance
  else if negb (match predictions_IDs with
                | [] => true
                | _ => Nat.eqb (length predictions_IDs) N
                end)
  then Some BadPredictionIDs
  else None.

(** Modelled from the spec (section 7): up-front validation of every
    supplied prediction covariance block; the first offending index. *)
Definition first_non_pd (layout : TCovarianceLayout) (Z Y C : CMatrixDouble)
  : option nat :=
  find (fun j => negb (is_pd (cov_block layout Z C j j))) (seq 0 (mrows Y)).

(** "If provided, the resulting associations in results.associations will
    not contain prediction indices i, but predictions_IDs[i]." *)
Definition translate_id (predictions_IDs : list nat) (j : nat) : nat :=
  match predictions_IDs with
  | [] => j
  | _ => nth j predictions_IDs 0%nat
  end.

(** The hypothesis chosen by the method, its joint statistic and the node
    count (zero for NN). *)
Definition association_hypothesis layout Z Y C method metric chi2quantile
  compatibilityTestMetric log_ML_compat_test_threshold
  : list (nat * nat) * Q * nat :=
  match method with
  | assocNN =>
      let h := nearest_neighbor layout Z Y C metric chi2quantile
                 log_ML_compat_test_threshold in
      (h, hyp_stat layout Z Y C metric h, 0%nat)
  | assocJCBB =>
      let st := JCBB layout Z Y C metric chi2quantile
                  compatibilityTestMetric log_ML_compat_test_threshold in
      (best st, best_stat st, nodes st)
  end.

(** Modelled from the spec (sections 4 to 7): the common body of both entry
    points.  [DAT_ASOC_USE_KDTREE] only selects how candidate predictions
    are looked up (spec 9: linear scan or index, same candidates), so it
    does not change the result. *)
Definition data_association (layout : TCovarianceLayout)
  (Z_observations_mean Y_predictions_mean Y_predictions_cov : CMatrixDouble)
  (method : TDataAssociationMethod) (metric : TDataAssociationMetric)
  (chi2quantile : Q) (DAT_ASOC_USE_KDTREE : bool)
  (predictions_IDs : list nat)
  (compatibilityTestMetric : TDataAssociationMetric)
  (log_ML_compat_test_threshold : Q)
  : TDataAssociationError + TDataAssociationResults :=
  let Z := Z_observations_mean in
  let Y := Y_predictions_mean in
  let C := Y_predictions_cov in
  match check_shapes layout Z Y C predictions_IDs with
  | Some what => inl (InvalidInputError what)
  | None =>
      match first_non_pd layout Z Y C with
      | Some j => inl (NumericalError j)
      | None =>
          let '(h, dist, n) :=
            association_hypothesis layout Z Y C method metric chi2quantile
              compatibilityTestMetric log_ML_compat_test_threshold in
          inr (mkResults
                 (map (fun p => (fst p, translate_id predictions_IDs (snd p))) h)
                 dist
                 (build_indiv_distances layout Z Y C metric)
                 (build_indiv_compatibility layout Z Y C metric chi2quantile
                    log_ML_compat_test_threshold)
                 (build_indiv_compatibility_counts layout Z Y C metric
                    chi2quantile log_ML_compat_test_threshold)
                 n)
      end
  end.

(** [data_association_full_covariance]. *)
Definition data_association_full_covariance :=
  data_association FullCovariance.

(** [data_association_independent_predictions]. *)
Definition data_association_independent_predictions :=
  data_association IndependentPredictions.

End DataAssociation.

(* ------------------------------------------------------------------ *)
(** ** Properties of hypotheses used in the statements *)

Section Specification.
Variable chi2inv : Q -> nat -> Q.
Variable ln : Q -> Q.
Variable layout : TCovarianceLayout.
Variables Z Y C : CMatrixDouble.
Variable metric : TDataAssociationMetric.
Variable chi2quantile : Q.
Variable compatibilityTestMetric : TDataAssociationMetric.
Variable log_ML_compat_test_threshold : Q.

Local Abbreviation compat :=
  (indiv_compat chi2inv ln layout Z Y C metric chi2quantile
     log_ML_compat_test_threshold).
Local Abbreviation jointly :=
  (jointly_compatible chi2inv ln layout Z Y C chi2quantile
     compatibilityTestMetric log_ML_compat_test_threshold).

(** Every non-empty prefix of [h] (in observation order) passes the joint
    gate. *)
Definition prefixes_jointly_compatible (h : list (nat * nat)) : Prop :=
  forall k, (0 < k <= length h)%nat -> jointly (firstn k h) = true.

(** Well-formed hypothesis: observations strictly increasing, predictions
    pairwise distinct, in range and individually compatible. *)
Definition hyp_wf (h : list (nat * nat)) : Prop :=
  StronglySorted lt (map fst h)
  /\ NoDup (map snd h)
  /\ Forall (fun p => (snd p < nPreds Y)%nat
                      /\ compat (fst p) (snd p) = true) h.

(** [jcbb_path i d hyp E]: [E] is a way to extend [hyp] along the search
    tree below observation [i] ([d] observations left): each step skips an
    observation or pairs it with an unclaimed, individually compatible
    prediction such that the enlarged hypothesis passes the joint gate. *)
Inductive jcbb_path : nat -> nat -> list (nat * nat) -> list (nat * nat)
                      -> Prop :=
| path_stop i d hyp : jcbb_path i d hyp []
| path_skip i d hyp E :
    jcbb_path (Datatypes.S i) d hyp E -> jcbb_path i (Datatypes.S d) hyp E
| path_take i d hyp j E :
    (j < nPreds Y)%nat -> compat i j = true -> claimed hyp j = false ->
    jointly (hyp ++ [(i, j)]) = true ->
    jcbb_path (Datatypes.S i) d (hyp ++ [(i, j)]) E ->
    jcbb_path i (Datatypes.S d) hyp ((i, j) :: E).
End Specification.

(** Bound on the nodes below a call with [d] observations left when [b-1]
    predictions compete: a call with one observation left explores at
    most one child, since the first leaf it reaches fills the incumbent. *)
Fixpoint node_bound_pruned (b d : nat) : nat :=
  match d with
  | O => 1
  | 1%nat => 2
  | Datatypes.S d' => 1 + b * node_bound_pruned b d'
  end.

(** Bound on the nodes below a call with [d] observations left when a single
    prediction competes: once it is claimed, the search below is a chain of
    skips. *)
Fixpoint node_bound_single (d : nat) : nat :=
  match d with
  | O => 1
  | 1%nat => 2
  | 2%nat => 4
  | Datatypes.S d' => 2 + d' + node_bound_single d'
  end.

(* ------------------------------------------------------------------ *)
(** ** Concrete instances used to run the model *)

(** Chi-square quantiles for 1 to 4 degrees of freedom at 0.90 and 0.99
    (rounded to 3 decimals), a coarse bound beyond. *)
Definition chi2inv_90 (k : nat) : Q :=
  match k with
  | 1%nat => 2706 # 1000 | 2%nat => 4605 # 1000
  | 3%nat => 6251 # 1000 | 4%nat => 7779 # 1000
  | _ => inject_Z (Z.of_nat k) * 2
  end.
Definition chi2inv_99 (k : nat) : Q :=
  match k with
  | 1%nat => 6635 # 1000 | 2%nat => 9210 # 1000
  | 3%nat => 11345 # 1000 | 4%nat => 13277 # 1000
  | _ => inject_Z (Z.of_nat k) * 4
  end.

(** A step approximation of [chi2inv]: the 0.90 quantile up to [P = 0.9],
    the 0.99 quantile above (non-decreasing in [P]). *)
Definition chi2inv_step (P : Q) (k : nat) : Q :=
  if Qle_bool P (9 # 10) then chi2inv_90 k else chi2inv_99 k.

(** The concrete runs use the Mahalanobis metric only, which does not call
    the logarithm. *)
Definition ln_unused (x : Q) : Q := 0.

Definition mat (r c : nat) (d : list (list Q)) : CMatrixDouble :=
  mkMatrix r c d.

(** A query with independent predictions and the Mahalanobis metric for
    both tests. *)
Definition run (Z Y C : CMatrixDouble) (method : TDataAssociationMethod)
  (chi2quantile : Q) (predictions_IDs : list nat)
  : TDataAssociationError + TDataAssociationResults :=
  data_association_independent_predictions chi2inv_step ln_unused Z Y C
    method metricMaha chi2quantile false predictions_IDs metricMaha 0.

Definition result_of (x : TDataAssociationError + TDataAssociationResults)
  : TDataAssociationResults :=
  match x with inr r => r | inl _ => TDataAssociationResults_default end.

(** Two one-dimensional observations [1/2] and [3], two predictions [0] and
    [1] of unit variance. *)
Definition Z_two := mat 2 1 [[1 # 2]; [3]].
Definition Y_two := mat 2 1 [[0]; [1]].
Definition C_two := mat 2 1 [[1]; [1]].

(** One observation [0] against the same two predictions. *)
Definition Z_one := mat 1 1 [[0]].

(** Two far apart observations, each individually compatible with its own
    prediction, whose joint statistic exceeds the 2-dof gate. *)
Definition Z_far := mat 2 1 [[0]; [100]].
Definition Y_far := mat 2 1 [[3]; [103]].
Definition C_far := mat 2 1 [[3 # 2]; [3 # 2]].

(** Three observations and no prediction. *)
Definition Z_three := mat 3 1 [[0]; [1]; [2]].
Definition Y_none := mat 0 1 [].
Definition C_none := mat 0 1 [].

(* ------------------------------------------------------------------ *)
(** ** [CProbabilityDensityFunction::drawManySamples] *)

Module Sampling.
Section Sampling.
Variables TDATA RNG R : Type.
(** The virtual [drawSingleSample(TDATA& outPart)]: it receives the current
    value of its output argument and consumes the state of the random
    generator it draws from. *)
Variable drawSingleSample : RNG -> TDATA -> TDATA * RNG.
(** [TDATA::asVectorVal()], copied into a [CVectorDouble]. *)
Variable asVectorVal : TDATA -> list R.
(** A default-constructed [TDATA pnt]. *)
Variable TDATA_default : TDATA.

(** [v[i] = x] on a [std::vector] (only ever called with [i < v.size()]). *)
Fixpoint vector_set {A} (i : nat) (x : A) (v : list A) : list A :=
  match v, i with
  | [], _ => []
  | _ :: t, O => x :: t
  | h :: t, Datatypes.S i' => h :: vector_set i' x t
  end.

(** The loop [for (i = ...; i < N; i++) { drawSingleSample(pnt);
    outSamples[i] = CVectorDouble(pnt.asVectorVal()); }] with [n]
    iterations left from index [i]. *)
Fixpoint draw_loop (i n : nat) (rng : RNG) (pnt : TDATA)
  (outSamples : list (list R)) : list (list R) * RNG :=
  match n with
  | O => (outSamples, rng)
  | Datatypes.S n' =>
      let '(pnt', rng') := drawSingleSample rng pnt in
      draw_loop (Datatypes.S i) n' rng' pnt'
        (vector_set i (asVectorVal pnt') outSamples)
  end.

(** [outSamples.resize(N)] (new entries are empty vectors), then the loop
    from a default-constructed [pnt]. *)
Definition drawManySamples (N : nat) (rng : RNG) (outSamples : list (list R))
  : list (list R) * RNG :=
  draw_loop 0 N rng TDATA_default (resize N [] outSamples).

(** The samples of [n] successive calls of [drawSingleSample], each handed
    the previous sample, and the generator state they leave. *)
Fixpoint draw_sequence (n : nat) (rng : RNG) (pnt : TDATA) : list TDATA * RNG :=
  match n with
  | O => ([], rng)
  | Datatypes.S n' =>
      let '(pnt', rng') := drawSingleSample rng pnt in
      let '(ps, r) := draw_sequence n' rng' pnt' in (pnt' :: ps, r)
  end.
End Sampling.
End Sampling.

(** A sampler whose generator is a counter: the [k]-th draw returns [k]. *)
Definition counter_sample (rng : nat) (pnt : nat) : nat * nat :=
  (rng, Datatypes.S rng).

(* ------------------------------------------------------------------ *)
(** ** Lemmas on the binary64 comparisons *)

Module EntropyFacts.
Import Entropy.
Local Open Scope float_scope.

Lemma SFcompare_swap x y :
  SFcompare y x = option_map CompOpp (SFcompare x y).
Proof.
  destruct x as [s1|s1| |s1 m1 e1], y as [s2|s2| |s2 m2 e2];
    try destruct s1; try destruct s2; simpl; try reflexivity;
    rewrite (Z.compare_antisym e1 e2);
    destruct (Z.compare e1 e2); simpl; try reflexivity;
    rewrite !Pos.compare_cont_spec, (Pos.compare_antisym m1 m2);
    try reflexivity; destruct (Pos.compare m1 m2); reflexivity.
Qed.

Lemma Prim2SF_epsilon :
  Prim2SF epsilon = S754_finite false 4503599627370496 (-104).
Proof. vm_compute. reflexivity. Qed.

Lemma Prim2SF_zero : Prim2SF 0 = S754_zero false.
Proof. vm_compute. reflexivity. Qed.

Lemma SFcompare_epsilon_Eq x :
  SFcompare x (Prim2SF epsilon) = Some Eq -> x = Prim2SF epsilon.
Proof.
  rewrite Prim2SF_epsilon.
  destruct x as [s|s| |s m e]; try destruct s; cbn [SFcompare];
    try discriminate.
  destruct (Z.compare e (-104)) eqn:He; try discriminate.
  rewrite Pos.compare_cont_spec.
  destruct (Pos.compare m 4503599627370496) eqn:Hm; try discriminate.
  intros _. apply Z.compare_eq in He. apply Pos.compare_eq in Hm.
  subst. reflexivity.
Qed.

End EntropyFacts.

Module EntropyTheorems.
Import Entropy EntropyFacts.
Local Open Scope float_scope.

(** C10: [getCovarianceEntropy] never calls [log] on a non-positive
    argument: [log] receives [std::max(det, epsilon)], which is never
    [<= 0] for any double [det] (NaN included), is [>= epsilon] for every
    non-NaN [det], and is exactly [epsilon] whenever [det <= epsilon], in
    particular for a singular covariance ([det = 0]); the entropy is then
    [0.5 * (STATE_LEN + STATE_LEN * ln_2PI + log(epsilon))]. *)
Theorem getCovarianceEntropy_log_argument_clamped
  (log : float -> float) (STATE_LEN det : float) :
  (log_argument det <=? 0) = false
  /\ ((det =? det) = true -> (epsilon <=? log_argument det) = true)
  /\ ((det <=? epsilon) = true ->
      log_argument det = epsilon
      /\ getCovarianceEntropy log STATE_LEN det
         = 0.5 * (STATE_LEN + STATE_LEN * ln_2PI + log epsilon)).
Proof.
  unfold getCovarianceEntropy, log_argument, std_max.
  rewrite !leb_spec, !ltb_spec, !eqb_spec, Prim2SF_zero.
  destruct (SFltb (Prim2SF det) (Prim2SF epsilon)) eqn:Hlt.
  - rewrite Prim2SF_epsilon. split; [reflexivity|]. split; [reflexivity|].
    intros _. split; reflexivity.
  - assert (Hcmp : SFcompare (Prim2SF det) (Prim2SF epsilon) = None
                   \/ SFcompare (Prim2SF det) (Prim2SF epsilon) = Some Eq
                   \/ SFcompare (Prim2SF det) (Prim2SF epsilon) = Some Gt).
    { unfold SFltb in Hlt.
      destruct (SFcompare (Prim2SF det) (Prim2SF epsilon)) as [[]|];
        auto; discriminate. }
    split; [|split].
    + unfold SFltb in Hlt. rewrite Prim2SF_epsilon in Hlt.
      destruct (Prim2SF det) as [s|s| |s m e]; try destruct s;
        cbn [SFleb SFcompare]; try reflexivity; cbn in Hlt; discriminate.
    + intros Hnan. unfold SFleb. rewrite SFcompare_swap.
      destruct Hcmp as [Hc|[Hc|Hc]]; rewrite Hc; try reflexivity.
      unfold SFeqb in Hnan. rewrite Prim2SF_epsilon in Hc.
      destruct (Prim2SF det); discriminate.
    + intros Hle.
      assert (Heq : det = epsilon).
      { unfold SFleb in Hle.
        destruct Hcmp as [Hc|[Hc|Hc]]; rewrite Hc in Hle; try discriminate.
        apply SFcompare_epsilon_Eq in Hc.
        rewrite <- (SF2Prim_Prim2SF det), <- (SF2Prim_Prim2SF epsilon), Hc.
        reflexivity. }
      subst det. split; reflexivity.
Qed.

End EntropyTheorems.

(* ------------------------------------------------------------------ *)
(** ** Generic lemmas on lists and folds *)

Lemma fold_left_invariant {A B} (f : A -> B -> A) (P : A -> Prop) l a :
  P a -> (forall a x, In x l -> P a -> P (f a x)) -> P (fold_left f l a).
Proof.
  revert a; induction l as [|x l IH]; intros a Ha Hstep; simpl; [exact Ha|].
  apply IH; [apply Hstep; [left; reflexivity | exact Ha]|].
  intros b y Hy Hb. apply Hstep; [right; exact Hy | exact Hb].
Qed.

Lemma fold_left_measure {A B} (f : A -> B -> A) (m : A -> nat) c l a :
  (forall a x, In x l -> (m (f a x) <= m a + c)%nat) ->
  (m (fold_left f l a) <= m a + length l * c)%nat.
Proof.
  revert a; induction l as [|x l IH]; intros a Hstep; simpl; [lia|].
  assert (H1 := Hstep a x (or_introl eq_refl)).
  assert (H2 : (m (fold_left f l (f a x)) <= m (f a x) + length l * c)%nat).
  { apply IH. intros b y Hy. apply Hstep. right. exact Hy. }
  lia.
Qed.

(** A fold that never decreases a preorder. *)
Lemma fold_left_mono {A B} (f : A -> B -> A) (R : A -> A -> Prop) l a :
  (forall x, R x x) -> (forall x y z, R x y -> R y z -> R x z) ->
  (forall b x, In x l -> R b (f b x)) -> R a (fold_left f l a).
Proof.
  intros Hrefl Htrans Hstep.
  apply (fold_left_invariant f (fun b => R a b)); [apply Hrefl|].
  intros b x Hx Hab. apply (Htrans _ b); [exact Hab | apply Hstep, Hx].
Qed.

Lemma nth_map_seq {A} (f : nat -> A) k n d :
  nth n (map f (seq 0 k)) d = if Nat.ltb n k then f n else d.
Proof.
  destruct (Nat.ltb_spec n k) as [Hlt|Hge].
  - rewrite (nth_indep _ d (f 0%nat)) by (rewrite length_map, length_seq; lia).
    rewrite map_nth, seq_nth by exact Hlt. reflexivity.
  - apply nth_overflow. rewrite length_map, length_seq. exact Hge.
Qed.

Lemma StronglySorted_snoc {A} (R : A -> A -> Prop) l x :
  StronglySorted R l -> Forall (fun y => R y x) l ->
  StronglySorted R (l ++ [x]).
Proof.
  induction l as [|y l IH]; intros Hs Hf; simpl.
  - constructor; [constructor | constructor].
  - inversion Hs as [|? ? Hs' Hy]; subst. inversion Hf as [|? ? Hyx Hf']; subst.
    constructor; [apply IH; assumption|].
    apply Forall_app. split; [exact Hy | constructor; [exact Hyx | constructor]].
Qed.

Lemma StronglySorted_lt_NoDup l : StronglySorted lt l -> NoDup l.
Proof.
  induction l as [|x l IH]; intros Hs; constructor.
  - inversion Hs as [|? ? _ Hf]; subst. intros Hin.
    rewrite Forall_forall in Hf. specialize (Hf x Hin). lia.
  - apply IH. inversion Hs; assumption.
Qed.

(** A map injective on the elements of a duplicate-free list keeps it free
    of duplicates. *)
Lemma NoDup_map_on {A B} (f : A -> B) l :
  (forall x y, In x l -> In y l -> f x = f y -> x = y) ->
  NoDup l -> NoDup (map f l).
Proof.
  induction l as [|x l IH]; intros Hinj Hnd; simpl; constructor.
  - intros Hin. apply in_map_iff in Hin as [y [Hxy Hy]].
    inversion Hnd as [|? ? Hx _]; subst.
    assert (x = y) by (apply Hinj; [left | right | symmetry]; auto).
    subst. contradiction.
  - apply IH; [intros a b Ha Hb; apply Hinj; right; assumption|].
    inversion Hnd; assumption.
Qed.

Lemma claimed_false_iff hyp j :
  claimed hyp j = false <-> ~ In j (map snd hyp).
Proof.
  unfold claimed. split.
  - intros Hc Hin. apply in_map_iff in Hin as [p [Hp Hin]].
    assert (Hex : existsb (fun p => Nat.eqb (snd p) j) hyp = true).
    { apply existsb_exists. exists p. split; [exact Hin|].
      apply Nat.eqb_eq. exact Hp. }
    rewrite Hex in Hc. discriminate.
  - intros Hnin. destruct (existsb _ hyp) eqn:Hex; [|reflexivity].
    apply existsb_exists in Hex as [p [Hin Hp]]. apply Nat.eqb_eq in Hp.
    exfalso. apply Hnin. apply in_map_iff. exists p. auto.
Qed.

Lemma firstn_snoc_le {A} (l : list A) x k :
  (k <= length l)%nat -> firstn k (l ++ [x]) = firstn k l.
Proof.
  intros Hk. rewrite firstn_app.
  replace (k - length l)%nat with 0%nat by lia. simpl. apply app_nil_r.
Qed.

(* ------------------------------------------------------------------ *)
(** ** The search: invariants, node count and optimality *)

Section SearchProofs.
Variable chi2inv : Q -> nat -> Q.
Variable ln : Q -> Q.
Variable layout : TCovarianceLayout.
Variables Z Y C : CMatrixDouble.
Variable metric : TDataAssociationMetric.
Variable chi2quantile : Q.
Variable ctm : TDataAssociationMetric.
Variable thr : Q.

Local Abbreviation N := (nPreds Y).
Local Abbreviation compat :=
  (indiv_compat chi2inv ln layout Z Y C metric chi2quantile thr).
Local Abbreviation jointly :=
  (jointly_compatible chi2inv ln layout Z Y C chi2quantile ctm thr).
Local Abbreviation search :=
  (jcbb chi2inv ln layout Z Y C metric chi2quantile ctm thr).
Local Abbreviation wf :=
  (hyp_wf chi2inv ln layout Z Y C metric chi2quantile thr).
Local Abbreviation pjc :=
  (prefixes_jointly_compatible chi2inv ln layout Z Y C chi2quantile ctm thr).
Local Abbreviation path :=
  (jcbb_path chi2inv ln layout Z Y C metric chi2quantile ctm thr).
Local Abbreviation pick :=
  (nn_pick chi2inv ln layout Z Y C metric chi2quantile thr).
Local Abbreviation nn :=
  (nn_loop chi2inv ln layout Z Y C metric chi2quantile thr).

Lemma jcbb_O i hyp st :
  search 0 i hyp st =
  (let st := mkJCBBState (best st) (best_stat st) (Datatypes.S (nodes st)) in
   if better ln layout Z Y C metric hyp st
   then mkJCBBState hyp (hyp_stat ln layout Z Y C metric hyp) (nodes st)
   else st).
Proof. reflexivity. Qed.

Lemma jcbb_S d i hyp st :
  search (Datatypes.S d) i hyp st =
  (let st := mkJCBBState (best st) (best_stat st) (Datatypes.S (nodes st)) in
   let st := fold_left (fun st j =>
       if compat i j && negb (claimed hyp j) then
         let hyp' := hyp ++ [(i, j)] in
         if Nat.leb (length hyp' + d) (length (best st)) then st
         else if jointly hyp' then search d (Datatypes.S i) hyp' st else st
       else st) (seq 0 N) st in
   if Nat.leb (length hyp + d) (length (best st)) then st
   else search d (Datatypes.S i) hyp st).
Proof. reflexivity. Qed.

Lemma better_length hyp st :
  better ln layout Z Y C metric hyp st = false ->
  (length hyp <= length (best st))%nat.
Proof.
  unfold better. intros Hb. apply orb_false_iff in Hb as [Hlt _].
  apply Nat.ltb_ge in Hlt. exact Hlt.
Qed.

Lemma better_true_length hyp st :
  better ln layout Z Y C metric hyp st = true ->
  (length (best st) <= length hyp)%nat.
Proof.
  unfold better. intros Hb. apply orb_true_iff in Hb as [H|H].
  - apply Nat.ltb_lt in H. lia.
  - apply andb_true_iff in H as [H _]. apply Nat.eqb_eq in H. lia.
Qed.

(** The incumbent never gets fewer pairs. *)
Lemma jcbb_best_mono d : forall i hyp st,
  (length (best st) <= length (best (search d i hyp st)))%nat.
Proof.
  induction d as [|d IH]; intros i hyp st.
  - rewrite jcbb_O. cbv zeta.
    destruct (better _ _ _ _ _ _ hyp _) eqn:Hb; simpl.
    + apply better_true_length in Hb. exact Hb.
    + lia.
  - rewrite jcbb_S. cbv zeta.
    set (st2 := fold_left _ (seq 0 N) _).
    assert (H2 : (length (best st) <= length (best st2))%nat).
    { change (length (best st)) with (length (best (mkJCBBState (best st)
        (best_stat st) (Datatypes.S (nodes st))))).
      apply (fold_left_mono _ (fun a b => (length (best a) <= length (best b))%nat)).
      - intros; lia.
      - intros; lia.
      - intros b j _.
        destruct (compat i j && negb (claimed hyp j)); [|lia].
        destruct (Nat.leb _ _); [lia|].
        destruct (jointly _); [apply IH | lia]. }
    destruct (Nat.leb _ _); [exact H2|].
    specialize (IH (Datatypes.S i) hyp st2). lia.
Qed.

Lemma extend_wf hyp i j :
  wf hyp -> Forall (fun p => (fst p < i)%nat) hyp -> (j < N)%nat ->
  compat i j = true -> claimed hyp j = false -> wf (hyp ++ [(i, j)]).
Proof.
  intros [Hs [Hnd Hf]] Hlt Hj Hc Hcl. split; [|split].
  - rewrite map_app. apply StronglySorted_snoc; [exact Hs|].
    apply Forall_map. exact Hlt.
  - rewrite map_app. apply NoDup_app; [exact Hnd | constructor; [intros []|constructor] |].
    intros x Hx Hx'. destruct Hx' as [Hx'|[]]. simpl in Hx'. subst x.
    apply claimed_false_iff in Hcl. contradiction.
  - apply Forall_app. split; [exact Hf|]. constructor; [simpl; auto | constructor].
Qed.

Lemma extend_pjc hyp x :
  pjc hyp -> jointly (hyp ++ [x]) = true -> pjc (hyp ++ [x]).
Proof.
  intros Hp Hj k Hk. rewrite length_app in Hk. simpl in Hk.
  destruct (Nat.eq_dec k (Datatypes.S (length hyp))) as [->|Hne].
  - rewrite firstn_all2 by (rewrite length_app; simpl; lia). exact Hj.
  - rewrite firstn_snoc_le by lia. apply Hp. lia.
Qed.

Lemma Forall_fst_snoc hyp i j :
  Forall (fun p : nat * nat => (fst p < i)%nat) hyp ->
  Forall (fun p : nat * nat => (fst p < Datatypes.S i)%nat) (hyp ++ [(i, j)]).
Proof.
  intros Hf. apply Forall_app. split.
  - eapply Forall_impl; [|exact Hf]. intros p Hp; simpl in Hp; lia.
  - constructor; [simpl; lia | constructor].
Qed.

Lemma Forall_fst_weaken hyp i :
  Forall (fun p : nat * nat => (fst p < i)%nat) hyp ->
  Forall (fun p : nat * nat => (fst p < Datatypes.S i)%nat) hyp.
Proof. intros Hf. eapply Forall_impl; [|exact Hf]. intros p Hp; simpl in Hp; lia. Qed.

(** The incumbent stays a well-formed hypothesis whose prefixes all pass
    the joint gate. *)
Lemma jcbb_wf d : forall i hyp st,
  wf hyp -> pjc hyp -> Forall (fun p : nat * nat => (fst p < i)%nat) hyp ->
  wf (best st) -> pjc (best st) ->
  wf (best (search d i hyp st)) /\ pjc (best (search d i hyp st)).
Proof.
  induction d as [|d IH]; intros i hyp st Hw Hp Hlt Hbw Hbp.
  - rewrite jcbb_O. cbv zeta.
    destruct (better _ _ _ _ _ _ hyp _); simpl; auto.
  - rewrite jcbb_S. cbv zeta.
    set (st2 := fold_left _ (seq 0 N) _).
    assert (H2 : wf (best st2) /\ pjc (best st2)).
    { apply (fold_left_invariant _ (fun b => wf (best b) /\ pjc (best b)));
        [simpl; auto|].
      intros b j Hj [Hbw' Hbp'].
      apply in_seq in Hj.
      destruct (compat i j) eqn:Hc; [|simpl; auto].
      destruct (claimed hyp j) eqn:Hcl; [simpl; auto|]. simpl.
      destruct (Nat.leb _ _); [auto|].
      destruct (jointly _) eqn:Hjc; [|auto].
      apply IH; auto.
      + apply extend_wf; auto. lia.
      + apply extend_pjc; auto.
      + apply Forall_fst_snoc. exact Hlt. }
    destruct H2 as [H2w H2p].
    destruct (Nat.leb _ _); [auto|].
    apply IH; auto. apply Forall_fst_weaken. exact Hlt.
Qed.

Lemma jcbb_path_length i d hyp E : path i d hyp E -> (length E <= d)%nat.
Proof. induction 1; simpl; lia. Qed.

(** Branch and bound is sound: the incumbent returned is at least as large
    as any extension of [hyp] along the search tree. *)
Lemma jcbb_optimal d : forall i hyp st E,
  path i d hyp E ->
  (length hyp + length E <= length (best (search d i hyp st)))%nat.
Proof.
  induction d as [|d IH]; intros i hyp st E Hpath.
  - inversion Hpath; subst. rewrite jcbb_O. cbv zeta.
    destruct (better _ _ _ _ _ _ hyp _) eqn:Hb; simpl; [lia|].
    apply better_length in Hb. simpl in Hb. lia.
  - rewrite jcbb_S. cbv zeta.
    set (f := fun (st0 : TJCBBState) (j : nat) => _ : TJCBBState).
    set (st1 := mkJCBBState (best st) (best_stat st) (Datatypes.S (nodes st))).
    assert (Hmono : forall l b,
               (length (best b) <= length (best (fold_left f l b)))%nat).
    { intros l b. apply (fold_left_mono _ (fun a c => (length (best a) <= length (best c))%nat)).
      - intros; lia.
      - intros; lia.
      - intros b' j _. unfold f.
        destruct (compat i j && negb (claimed hyp j)); [|lia].
        destruct (Nat.leb _ _); [lia|].
        destruct (jointly _); [apply jcbb_best_mono | lia]. }
    set (st2 := fold_left f (seq 0 N) st1).
    assert (Hfinal : (length (best st2) <=
       length (best (if Nat.leb (length hyp + d) (length (best st2)) then st2
                     else search d (Datatypes.S i) hyp st2)))%nat).
    { destruct (Nat.leb _ _); [lia | apply jcbb_best_mono]. }
    (* the branches that leave observation [i] unassigned *)
    assert (Hskip : forall E', path (Datatypes.S i) d hyp E' ->
       (length hyp + length E' <=
        length (best (if Nat.leb (length hyp + d) (length (best st2)) then st2
                      else search d (Datatypes.S i) hyp st2)))%nat).
    { intros E' HE'. destruct (Nat.leb_spec (length hyp + d) (length (best st2))).
      - apply jcbb_path_length in HE'. lia.
      - apply IH. exact HE'. }
    inversion Hpath as [? ? ? | ? ? ? ? HE | ? ? ? j E' Hj Hc Hcl Hjc HE];
      subst.
    + apply (Hskip []). constructor.
    + apply Hskip. exact HE.
    + assert (Hin : In j (seq 0 N)) by (apply in_seq; lia).
      apply in_split in Hin as [l1 [l2 Hsplit]].
      assert (Hstep : (length hyp + length ((i, j) :: E') <=
                       length (best (f (fold_left f l1 st1) j)))%nat).
      { set (b := fold_left f l1 st1). unfold f. rewrite Hc, Hcl. simpl andb.
        cbv zeta.
        destruct (Nat.leb_spec (length (hyp ++ [(i, j)]) + d)
                    (length (best b))) as [Hle|Hgt].
        - apply jcbb_path_length in HE. rewrite length_app in Hle.
          simpl in Hle |- *. lia.
        - rewrite Hjc. specialize (IH (Datatypes.S i) _ b E' HE).
          rewrite length_app in IH. simpl in IH |- *. lia. }
      assert (Hst2 : (length (best (f (fold_left f l1 st1) j))
                      <= length (best st2))%nat).
      { unfold st2. rewrite Hsplit, fold_left_app. simpl fold_left.
        apply Hmono. }
      lia.
Qed.

Lemma nn_pick_spec hyp i j :
  pick hyp i = Some j ->
  (j < N)%nat /\ compat i j = true /\ claimed hyp j = false.
Proof.
  unfold nn_pick.
  apply (fold_left_invariant _ (fun acc => forall j, acc = Some j ->
           (j < N)%nat /\ compat i j = true /\ claimed hyp j = false));
    [discriminate|].
  intros acc x Hx Hacc j'. apply in_seq in Hx.
  destruct (compat i x) eqn:Hc; [|apply Hacc].
  destruct (claimed hyp x) eqn:Hcl; [apply Hacc|]. simpl.
  destruct acc as [jb|].
  - destruct (isCloser _ _ _); [|apply Hacc].
    intros H; injection H as <-. repeat split; auto; lia.
  - intros H; injection H as <-. repeat split; auto; lia.
Qed.

Lemma nn_loop_wf d : forall i hyp,
  wf hyp -> Forall (fun p : nat * nat => (fst p < i)%nat) hyp ->
  wf (nn d i hyp).
Proof.
  induction d as [|d IH]; intros i hyp Hw Hlt; simpl; [exact Hw|].
  destruct (pick hyp i) as [j|] eqn:Hp.
  - apply nn_pick_spec in Hp as [Hj [Hc Hcl]].
    apply IH; [apply extend_wf; auto | apply Forall_fst_snoc; exact Hlt].
  - apply IH; [exact Hw | apply Forall_fst_weaken; exact Hlt].
Qed.

(** The nearest-neighbour hypothesis is an extension along the search tree
    as soon as its prefixes pass the joint gate. *)
Lemma nn_loop_path d : forall i hyp, exists E,
  nn d i hyp = hyp ++ E
  /\ ((forall k, (length hyp < k <= length (hyp ++ E))%nat ->
                 jointly (firstn k (hyp ++ E)) = true) ->
      path i d hyp E).
Proof.
  induction d as [|d IH]; intros i hyp; simpl.
  - exists []. rewrite app_nil_r. split; [reflexivity|]. intros _. constructor.
  - destruct (pick hyp i) as [j|] eqn:Hp.
    + destruct (IH (Datatypes.S i) (hyp ++ [(i, j)])) as [E' [Heq Himp]].
      exists ((i, j) :: E').
      assert (Happ : (hyp ++ [(i, j)]) ++ E' = hyp ++ (i, j) :: E')
        by (rewrite <- app_assoc; reflexivity).
      rewrite Heq, Happ. split; [reflexivity|].
      intros Hk. apply nn_pick_spec in Hp as [Hj [Hc Hcl]].
      apply path_take; auto.
      * specialize (Hk (Datatypes.S (length hyp))).
        rewrite length_app in Hk. cbn [length] in Hk.
        replace (firstn (Datatypes.S (length hyp)) (hyp ++ (i, j) :: E'))
          with (hyp ++ [(i, j)]) in Hk.
        -- apply Hk. lia.
        -- rewrite <- Happ, firstn_app, firstn_all2 by (rewrite length_app; simpl; lia).
           rewrite length_app. cbn [length].
           replace (Datatypes.S (length hyp) - (length hyp + 1))%nat with 0%nat by lia.
           rewrite firstn_O, app_nil_r. reflexivity.
      * apply Himp. intros k Hk'. rewrite Happ. apply Hk.
        rewrite Happ, !length_app in Hk'. rewrite length_app.
        cbn [length] in Hk' |- *. lia.
    + destruct (IH (Datatypes.S i) hyp) as [E [Heq Himp]].
      exists E. split; [exact Heq|]. intros Hk. constructor. apply Himp. exact Hk.
Qed.

End SearchProofs.

(* ------------------------------------------------------------------ *)
(** ** Counting the nodes of the search *)

Section NodeCount.
Variable chi2inv : Q -> nat -> Q.
Variable ln : Q -> Q.
Variable layout : TCovarianceLayout.
Variables Z Y C : CMatrixDouble.
Variable metric : TDataAssociationMetric.
Variable chi2quantile : Q.
Variable ctm : TDataAssociationMetric.
Variable thr : Q.

Local Abbreviation N := (nPreds Y).
Local Abbreviation compat :=
  (indiv_compat chi2inv ln layout Z Y C metric chi2quantile thr).
Local Abbreviation jointly :=
  (jointly_compatible chi2inv ln layout Z Y C chi2quantile ctm thr).
Local Abbreviation search :=
  (jcbb chi2inv ln layout Z Y C metric chi2quantile ctm thr).

(** A leaf counts one node and leaves an incumbent at least as large as its
    hypothesis. *)
Lemma jcbb_leaf i hyp st :
  nodes (search 0 i hyp st) = Datatypes.S (nodes st)
  /\ (length hyp <= length (best (search 0 i hyp st)))%nat.
Proof.
  rewrite jcbb_O. cbv zeta.
  destruct (better _ _ _ _ _ _ hyp _) eqn:Hb; simpl.
  - split; reflexivity.
  - split; [reflexivity|]. apply better_length in Hb. exact Hb.
Qed.

(** A call with one observation left counts one or two nodes; when it
    counts two, it reached a leaf, so the incumbent is at least as large as
    its hypothesis. *)
Lemma jcbb_one i hyp st :
  nodes (search 1 i hyp st) = Datatypes.S (nodes st)
  \/ (nodes (search 1 i hyp st) = Datatypes.S (Datatypes.S (nodes st))
      /\ (length hyp <= length (best (search 1 i hyp st)))%nat).
Proof.
  rewrite jcbb_S. cbv zeta.
  set (st2 := fold_left _ (seq 0 N) _).
  assert (H2 : nodes st2 = Datatypes.S (nodes st)
               \/ (nodes st2 = Datatypes.S (Datatypes.S (nodes st))
                   /\ (Datatypes.S (length hyp) <= length (best st2))%nat)).
  { unfold st2. apply fold_left_invariant; [left; reflexivity|].
    intros b j _ Hb.
    destruct (compat i j && negb (claimed hyp j)); [|exact Hb].
    rewrite length_app. cbn [length]. rewrite Nat.add_0_r.
    destruct (Nat.leb_spec (length hyp + 1) (length (best b))) as [Hle|Hgt];
      [exact Hb|].
    destruct Hb as [Hb|[_ Hb]]; [|lia].
    destruct (jointly _); [|left; exact Hb].
    right. destruct (jcbb_leaf (Datatypes.S i) (hyp ++ [(i, j)]) b) as [Hn Hl].
    rewrite length_app in Hl. cbn [length] in Hl. split; [lia | lia]. }
  rewrite Nat.add_0_r.
  destruct (Nat.leb_spec (length hyp) (length (best st2))) as [Hle|Hgt].
  - destruct H2 as [H2|[H2 _]]; [left | right]; auto.
  - destruct H2 as [H2|[_ H2]]; [|lia].
    destruct (jcbb_leaf (Datatypes.S i) hyp st2) as [Hn Hl].
    right. split; [lia | exact Hl].
Qed.

(** Below a call with [d] observations left, at most
    [node_bound_pruned (N+1) d] nodes. *)
Lemma jcbb_nodes_pruned d : forall i hyp st,
  (nodes (search d i hyp st) <= nodes st + node_bound_pruned (Datatypes.S N) d)%nat.
Proof.
  induction d as [|d IH]; intros i hyp st.
  - destruct (jcbb_leaf i hyp st) as [Hn _]. cbn [node_bound_pruned node_bound_single]. lia.
  - destruct d as [|d].
    + destruct (jcbb_one i hyp st) as [Hn|[Hn _]]; cbn [node_bound_pruned node_bound_single]; lia.
    + rewrite jcbb_S. cbv zeta.
      set (st2 := fold_left _ (seq 0 N) _).
      assert (H2 : (nodes st2 <= Datatypes.S (nodes st)
                     + N * node_bound_pruned (Datatypes.S N) (Datatypes.S d))%nat).
      { unfold st2.
        rewrite <- (length_seq N 0) at 2.
        apply (fold_left_measure _ nodes).
        intros b j _.
        destruct (compat i j && negb (claimed hyp j)); [|lia].
        destruct (Nat.leb _ _); [lia|].
        destruct (jointly _); [apply IH | lia]. }
      change (node_bound_pruned (Datatypes.S N) (Datatypes.S (Datatypes.S d)))
        with (1 + Datatypes.S N
                  * node_bound_pruned (Datatypes.S N) (Datatypes.S d))%nat.
      rewrite Nat.mul_succ_l.
      destruct (Nat.leb _ _); [lia|].
      specialize (IH (Datatypes.S i) hyp st2). lia.
Qed.

Section SinglePrediction.
Hypothesis single : N = 1%nat.

(** With a single prediction already claimed, only skips remain. *)
Lemma jcbb_nodes_claimed d : forall i hyp st,
  claimed hyp 0 = true ->
  (nodes (search d i hyp st) <= nodes st + Datatypes.S d)%nat.
Proof.
  induction d as [|d IH]; intros i hyp st Hcl.
  - destruct (jcbb_leaf i hyp st) as [Hn _]. lia.
  - rewrite jcbb_S. cbv zeta. rewrite single. cbn [seq fold_left].
    rewrite Hcl, andb_false_r.
    destruct (Nat.leb _ _); simpl; [lia|].
    specialize (IH (Datatypes.S i) hyp
                  (mkJCBBState (best st) (best_stat st) (Datatypes.S (nodes st)))
                  Hcl).
    simpl in IH. lia.
Qed.

Lemma claimed_snoc hyp i j : claimed (hyp ++ [(i, j)]) j = true.
Proof.
  unfold claimed. rewrite existsb_app. simpl.
  rewrite Nat.eqb_refl, !orb_true_r. reflexivity.
Qed.

Lemma jcbb_nodes_single d : forall i hyp st,
  (nodes (search d i hyp st) <= nodes st + node_bound_single d)%nat.
Proof.
  induction d as [|d IH]; intros i hyp st.
  - destruct (jcbb_leaf i hyp st) as [Hn _]. cbn [node_bound_pruned node_bound_single]. lia.
  - destruct d as [|[|d]].
    + destruct (jcbb_one i hyp st) as [Hn|[Hn _]]; cbn [node_bound_pruned node_bound_single]; lia.
    + rewrite jcbb_S. cbv zeta. rewrite single. cbn [seq fold_left].
      set (st1 := mkJCBBState (best st) (best_stat st) (Datatypes.S (nodes st))).
      assert (Hst1 : nodes st1 = Datatypes.S (nodes st)) by reflexivity.
      set (st2 := if compat i 0 && negb (claimed hyp 0) then _ else st1).
      assert (H2 : nodes st2 = nodes st1
                   \/ nodes st2 = Datatypes.S (nodes st1)
                   \/ (nodes st2 = Datatypes.S (Datatypes.S (nodes st1))
                       /\ (length hyp + 1 <= length (best st2))%nat)).
      { unfold st2.
        destruct (compat i 0 && negb (claimed hyp 0)); [|left; reflexivity].
        destruct (Nat.leb _ _); [left; reflexivity|].
        destruct (jointly _); [|left; reflexivity].
        destruct (jcbb_one (Datatypes.S i) (hyp ++ [(i, 0%nat)]) st1)
          as [Hn|[Hn Hl]]; [right; left; exact Hn|].
        right; right. rewrite length_app in Hl. cbn [length] in Hl.
        split; [exact Hn | exact Hl]. }
      cbn [node_bound_single].
      destruct (Nat.leb_spec (length hyp + 1) (length (best st2))).
      * lia.
      * destruct H2 as [H2|[H2|[_ H2]]]; [| |lia];
          destruct (jcbb_one (Datatypes.S i) hyp st2) as [Hn|[Hn _]]; lia.
    + rewrite jcbb_S. cbv zeta. rewrite single. cbn [seq fold_left].
      set (st1 := mkJCBBState (best st) (best_stat st) (Datatypes.S (nodes st))).
      set (st2 := if compat i 0 && negb (claimed hyp 0) then _ else st1).
      assert (H2 : (nodes st2 <= nodes st1
                     + Datatypes.S (Datatypes.S (Datatypes.S d)))%nat).
      { unfold st2.
        destruct (compat i 0 && negb (claimed hyp 0)); [|lia].
        destruct (Nat.leb _ _); [lia|].
        destruct (jointly _); [|lia].
        apply jcbb_nodes_claimed. apply claimed_snoc. }
      change (node_bound_single (Datatypes.S (Datatypes.S (Datatypes.S d))))
        with (2 + Datatypes.S (Datatypes.S d)
              + node_bound_single (Datatypes.S (Datatypes.S d)))%nat.
      assert (Hst1 : nodes st1 = Datatypes.S (nodes st)) by reflexivity.
      destruct (Nat.leb (length hyp + _) (length (best st2))); [lia|].
      specialize (IH (Datatypes.S i) hyp st2). lia.
Qed.
End SinglePrediction.

End NodeCount.

Lemma node_bound_pruned_closed n d :
  (n * node_bound_pruned (Datatypes.S n) (Datatypes.S d) + 1
   = (2 * n + 1) * Datatypes.S n ^ d)%nat.
Proof.
  induction d as [|d IH]; [simpl; lia|].
  change (node_bound_pruned (Datatypes.S n) (Datatypes.S (Datatypes.S d)))
    with (1 + Datatypes.S n * node_bound_pruned (Datatypes.S n) (Datatypes.S d))%nat.
  rewrite Nat.pow_succ_r'. nia.
Qed.

Lemma node_bound_pruned_pow n d :
  (2 <= n)%nat -> (node_bound_pruned (Datatypes.S n) d <= Datatypes.S n ^ d)%nat.
Proof.
  intros Hn. destruct d as [|d]; [simpl; lia|].
  pose proof (node_bound_pruned_closed n d) as Hc.
  pose proof (Nat.pow_nonzero (Datatypes.S n) d ltac:(lia)) as Hx.
  rewrite Nat.pow_succ_r'.
  set (x := (Datatypes.S n ^ d)%nat) in *.
  set (g := node_bound_pruned (Datatypes.S n) (Datatypes.S d)) in *.
  assert (H : (n * g <= n * (Datatypes.S n * x))%nat) by nia.
  apply Nat.mul_le_mono_pos_l in H; lia.
Qed.

Lemma pow2_ge d : (2 <= d)%nat -> (d + 2 <= 2 ^ d)%nat.
Proof.
  induction d as [|d IH]; intros Hd; [lia|].
  destruct (Nat.eq_dec d 1) as [->|Hne]; [simpl; lia|].
  rewrite Nat.pow_succ_r'. specialize (IH ltac:(lia)). lia.
Qed.

Lemma node_bound_single_pow d : (node_bound_single d <= 2 ^ d)%nat.
Proof.
  induction d as [|d IH]; [simpl; lia|].
  destruct d as [|[|d]]; [simpl; lia | simpl; lia|].
  change (node_bound_single (Datatypes.S (Datatypes.S (Datatypes.S d))))
    with (2 + Datatypes.S (Datatypes.S d)
          + node_bound_single (Datatypes.S (Datatypes.S d)))%nat.
  rewrite (Nat.pow_succ_r' 2 (Datatypes.S (Datatypes.S d))).
  pose proof (pow2_ge (Datatypes.S (Datatypes.S d)) ltac:(lia)). lia.
Qed.

(** With at least one prediction, a call with [d] observations left counts
    at most [(N+1)^d] nodes below it. *)
Lemma jcbb_nodes_pow chi2inv ln layout Z Y C metric chi2quantile ctm thr d i hyp st :
  (1 <= nPreds Y)%nat ->
  (nodes (jcbb chi2inv ln layout Z Y C metric chi2quantile ctm thr d i hyp st)
   <= nodes st + Datatypes.S (nPreds Y) ^ d)%nat.
Proof.
  intros HN.
  destruct (Nat.eq_dec (nPreds Y) 1) as [H1|H1].
  - pose proof (jcbb_nodes_single chi2inv ln layout Z Y C metric chi2quantile
                  ctm thr H1 d i hyp st).
    pose proof (node_bound_single_pow d). rewrite H1. lia.
  - pose proof (jcbb_nodes_pruned chi2inv ln layout Z Y C metric chi2quantile
                  ctm thr d i hyp st).
    pose proof (node_bound_pruned_pow (nPreds Y) d ltac:(lia)). lia.
Qed.

(* ------------------------------------------------------------------ *)
(** ** The entry points *)

Lemma find_seq_first (f : nat -> bool) s n k :
  find f (seq s n) = Some k -> forall j, (s <= j < k)%nat -> f j = false.
Proof.
  revert s; induction n as [|n IH]; intros s Hf j Hj; simpl in Hf;
    [discriminate|].
  destruct (f s) eqn:Hs.
  - injection Hf as <-. lia.
  - destruct (Nat.eq_dec j s) as [->|Hne]; [exact Hs|].
    apply (IH (Datatypes.S s)); [exact Hf | lia].
Qed.

Lemma mat_get_build {T} (d : T) r c (f : nat -> nat -> T) j i :
  (j < r)%nat -> (i < c)%nat ->
  mat_get d (mkMatrix r c (map (fun j => map (fun i => f i j) (seq 0 c))
                             (seq 0 r))) j i = f i j.
Proof.
  intros Hj Hi. unfold mat_get. cbn [mdata].
  rewrite nth_map_seq. apply Nat.ltb_lt in Hj. rewrite Hj.
  rewrite nth_map_seq. apply Nat.ltb_lt in Hi. rewrite Hi. reflexivity.
Qed.

Lemma mat_wf_build {T} r c (f : nat -> nat -> T) :
  mat_wf (mkMatrix r c (map (fun j => map (fun i => f i j) (seq 0 c))
                          (seq 0 r))) = true.
Proof.
  unfold mat_wf. cbn [mdata mrows mcols].
  rewrite length_map, length_seq, Nat.eqb_refl. simpl.
  apply forallb_forall. intros x Hx. apply in_map_iff in Hx as [j [<- _]].
  rewrite length_map, length_seq. apply Nat.eqb_refl.
Qed.

Section Results.
Variable chi2inv : Q -> nat -> Q.
Variable ln : Q -> Q.
Variable layout : TCovarianceLayout.
Variables Z Y C : CMatrixDouble.
Variable method : TDataAssociationMethod.
Variable metric : TDataAssociationMetric.
Variable chi2quantile : Q.
Variable DAT_ASOC_USE_KDTREE : bool.
Variable predictions_IDs : list nat.
Variable ctm : TDataAssociationMetric.
Variable thr : Q.

Local Abbreviation DA :=
  (data_association chi2inv ln layout Z Y C method metric chi2quantile
     DAT_ASOC_USE_KDTREE predictions_IDs ctm thr).
Local Abbreviation AH :=
  (association_hypothesis chi2inv ln layout Z Y C method metric chi2quantile
     ctm thr).
Local Abbreviation compat :=
  (indiv_compat chi2inv ln layout Z Y C metric chi2quantile thr).
Local Abbreviation wf :=
  (hyp_wf chi2inv ln layout Z Y C metric chi2quantile thr).
Local Abbreviation pjc :=
  (prefixes_jointly_compatible chi2inv ln layout Z Y C chi2quantile ctm thr).

Lemma data_association_inr r :
  DA = inr r ->
  check_shapes layout Z Y C predictions_IDs = None
  /\ first_non_pd layout Z Y C = None
  /\ r = mkResults
           (map (fun p => (fst p, translate_id predictions_IDs (snd p)))
              (fst (fst AH)))
           (snd (fst AH))
           (build_indiv_distances ln layout Z Y C metric)
           (build_indiv_compatibility chi2inv ln layout Z Y C metric
              chi2quantile thr)
           (build_indiv_compatibility_counts chi2inv ln layout Z Y C metric
              chi2quantile thr)
           (snd AH).
Proof.
  unfold data_association.
  destruct (check_shapes _ _ _ _ _); [discriminate|].
  destruct (first_non_pd _ _ _ _); [discriminate|].
  destruct AH as [[h dist] n]. intros H. injection H as <-. auto.
Qed.

Lemma hyp_wf_nil : wf [].
Proof. repeat split; constructor. Qed.

Lemma pjc_nil : pjc [].
Proof. intros k Hk. simpl in Hk. lia. Qed.

Lemma association_hypothesis_wf : wf (fst (fst AH)).
Proof.
  destruct method; simpl.
  - apply nn_loop_wf; [exact hyp_wf_nil | constructor].
  - apply (jcbb_wf chi2inv ln layout Z Y C metric chi2quantile ctm thr);
      [exact hyp_wf_nil | exact pjc_nil | constructor
      | exact hyp_wf_nil | exact pjc_nil].
Qed.

Lemma association_hypothesis_pjc :
  method = assocJCBB -> pjc (fst (fst AH)).
Proof.
  intros ->. simpl.
  apply (jcbb_wf chi2inv ln layout Z Y C metric chi2quantile ctm thr);
    [exact hyp_wf_nil | exact pjc_nil | constructor
    | exact hyp_wf_nil | exact pjc_nil].
Qed.

Lemma check_shapes_ids :
  check_shapes layout Z Y C predictions_IDs = None ->
  predictions_IDs <> [] -> length predictions_IDs = nPreds Y.
Proof.
  unfold check_shapes.
  destruct (negb (mat_wf Z)); [discriminate|].
  destruct (negb (mat_wf Y && _)); [discriminate|].
  destruct (negb (mat_wf C && _ && _)); [discriminate|].
  destruct predictions_IDs as [|x l]; [intros _ H; contradiction H; reflexivity|].
  destruct (Nat.eqb_spec (length (x :: l)) (mrows Y)); [auto | discriminate].
Qed.

Lemma list_nil_or_not {A} (l : list A) : l = [] \/ l <> [].
Proof. destruct l; [left; reflexivity | right; discriminate]. Qed.

Lemma translate_id_nonempty ids j :
  ids <> [] -> translate_id ids j = nth j ids 0%nat.
Proof. destruct ids; [contradiction | reflexivity]. Qed.

Lemma in_hyp_pred_range h x :
  Forall (fun p => (snd p < nPreds Y)%nat /\ compat (fst p) (snd p) = true) h ->
  In x (map snd h) -> (x < nPreds Y)%nat.
Proof.
  intros Hall Hx. apply in_map_iff in Hx as [p [<- Hp]].
  rewrite Forall_forall in Hall. apply (Hall p Hp).
Qed.

Lemma first_non_pd_None :
  (forall j, (j < nPreds Y)%nat -> is_pd (cov_block layout Z C j j) = true) ->
  first_non_pd layout Z Y C = None.
Proof.
  intros Hpd. unfold first_non_pd.
  destruct (find _ _) as [j|] eqn:Hf; [|reflexivity].
  apply find_some in Hf as [Hin Hneg]. apply in_seq in Hin.
  rewrite Hpd in Hneg; [discriminate | exact (proj2 Hin)].
Qed.

(** C1 (amended): on success, the observation keys of [associations] are
    strictly increasing, hence pairwise distinct, and the values are
    pairwise distinct whenever [predictions_IDs] has no duplicate (the
    empty vector, meaning raw prediction indices, included). *)
Theorem data_association_partial_injection r :
  data_association chi2inv ln layout Z Y C method metric chi2quantile
    DAT_ASOC_USE_KDTREE predictions_IDs ctm thr = inr r ->
  StronglySorted lt (map fst (associations r))
  /\ NoDup (map fst (associations r))
  /\ (NoDup predictions_IDs -> NoDup (map snd (associations r))).
Proof.
  intros H. apply data_association_inr in H as [Hs [_ ->]].
  cbn [associations].
  pose proof association_hypothesis_wf as [Hsort [Hnd Hall]].
  set (h := fst (fst AH)) in *.
  assert (Hfst : map fst (map (fun p => (fst p, translate_id predictions_IDs
                  (snd p))) h) = map fst h).
  { rewrite map_map. reflexivity. }
  rewrite Hfst. split; [exact Hsort|].
  split; [apply StronglySorted_lt_NoDup; exact Hsort|].
  intros Hids. rewrite map_map. cbn [snd].
  rewrite <- (map_map snd (translate_id predictions_IDs)).
  apply NoDup_map_on; [|exact Hnd].
  intros x y Hx Hy Heq.
  destruct (list_nil_or_not predictions_IDs) as [Hnil|Hne].
  { rewrite Hnil in Heq. exact Heq. }
  rewrite !(translate_id_nonempty _ _ Hne) in Heq.
  pose proof (check_shapes_ids Hs Hne) as Hlen.
  apply (proj1 (NoDup_nth predictions_IDs 0%nat) Hids); auto;
    rewrite Hlen; eapply in_hyp_pred_range; eauto.
Qed.

(** C2 (amended): on success, [indiv_distances] and [indiv_compatibility]
    are [N x M] matrices (rows: predictions, columns: observations, as
    documented on the record), entry [(j, i)] holding the statistic and
    the verdict of observation [i] against prediction [j];
    [indiv_compatibility_counts] has length [M], entry [i] being the
    number of predictions compatible with observation [i] (the sum of
    column [i]). *)
Theorem data_association_indiv_layout r :
  DA = inr r ->
  mrows (indiv_distances r) = nPreds Y /\ mcols (indiv_distances r) = nObs Z
  /\ mat_wf (indiv_distances r) = true
  /\ mrows (indiv_compatibility r) = nPreds Y
  /\ mcols (indiv_compatibility r) = nObs Z
  /\ mat_wf (indiv_compatibility r) = true
  /\ (forall i j, (i < nObs Z)%nat -> (j < nPreds Y)%nat ->
        mat_get 0 (indiv_distances r) j i = indiv_dist ln layout Z Y C metric i j
        /\ mat_get false (indiv_compatibility r) j i = compat i j)
  /\ length (indiv_compatibility_counts r) = nObs Z
  /\ (forall i, (i < nObs Z)%nat ->
        nth i (indiv_compatibility_counts r) 0%nat
        = length (filter (fun j => mat_get false (indiv_compatibility r) j i)
                    (seq 0 (nPreds Y)))).
Proof.
  intros H. apply data_association_inr in H as [_ [_ ->]].
  cbn [indiv_distances indiv_compatibility indiv_compatibility_counts].
  unfold build_indiv_distances, build_indiv_compatibility,
    build_indiv_compatibility_counts.
  split; [reflexivity|]. split; [reflexivity|].
  split; [apply mat_wf_build|].
  split; [reflexivity|]. split; [reflexivity|].
  split; [apply mat_wf_build|].
  split; [intros i j Hi Hj; split; apply mat_get_build; assumption|].
  split; [rewrite length_map, length_seq; reflexivity|].
  intros i Hi. rewrite nth_map_seq.
  apply Nat.ltb_lt in Hi as Hb. rewrite Hb.
  f_equal. apply filter_ext_in. intros j Hj. apply in_seq in Hj.
  symmetry. apply mat_get_build; lia.
Qed.

(** C3: on success with a non-empty [predictions_IDs], every association
    value is [predictions_IDs[j]] for the prediction row [j] chosen by the
    search, every such [j] is a valid position of [predictions_IDs], so
    every value is drawn from [predictions_IDs]. *)
Theorem data_association_ids_roundtrip r :
  predictions_IDs <> [] ->
  data_association chi2inv ln layout Z Y C method metric chi2quantile
    DAT_ASOC_USE_KDTREE predictions_IDs ctm thr = inr r ->
  associations r
  = map (fun p => (fst p, nth (snd p) predictions_IDs 0%nat)) (fst (fst AH))
  /\ Forall (fun p => (snd p < length predictions_IDs)%nat) (fst (fst AH))
  /\ Forall (fun a => In (snd a) predictions_IDs) (associations r).
Proof.
  intros Hne H. apply data_association_inr in H as [Hs [_ ->]].
  cbn [associations].
  pose proof (check_shapes_ids Hs Hne) as Hlen.
  pose proof association_hypothesis_wf as [_ [_ Hall]].
  assert (Hmap : map (fun p => (fst p, translate_id predictions_IDs (snd p)))
                   (fst (fst AH))
                 = map (fun p => (fst p, nth (snd p) predictions_IDs 0%nat))
                     (fst (fst AH))).
  { apply map_ext. intros p. rewrite translate_id_nonempty by exact Hne.
    reflexivity. }
  assert (Hlt : Forall (fun p => (snd p < length predictions_IDs)%nat)
                  (fst (fst AH))).
  { rewrite Hlen. eapply Forall_impl; [|exact Hall]. intros p [Hp _].
    exact Hp. }
  rewrite Hmap. split; [reflexivity|]. split; [exact Hlt|].
  apply Forall_map. eapply Forall_impl; [|exact Hlt].
  intros p Hp. apply nth_In. exact Hp.
Qed.

(** C4: numerical failures.  A pair whose statistic fails is not
    individually compatible; once the shapes are valid and every supplied
    prediction block is positive-definite, the query returns a result
    (failures inside the search never abort it), and a JCBB hypothesis
    only holds pairings whose every prefix passed the joint gate (a branch
    whose joint covariance is not positive-definite is dropped); a
    [NumericalError k] comes only from the up-front check, [k] being the
    first prediction whose block is not positive-definite. *)
Theorem data_association_numerical_failures :
  (forall i j, indiv_stat ln layout Z Y C metric i j = None ->
               compat i j = false)
  /\ (check_shapes layout Z Y C predictions_IDs = None ->
      (forall j, (j < nPreds Y)%nat ->
                 is_pd (cov_block layout Z C j j) = true) ->
      exists r, DA = inr r)
  /\ (forall r, DA = inr r -> method = assocJCBB ->
      associations r
      = map (fun p => (fst p, translate_id predictions_IDs (snd p)))
          (fst (fst AH))
      /\ pjc (fst (fst AH)))
  /\ (forall k, DA = inl (NumericalError k) ->
      check_shapes layout Z Y C predictions_IDs = None
      /\ (k < nPreds Y)%nat
      /\ is_pd (cov_block layout Z C k k) = false
      /\ (forall j, (j < k)%nat -> is_pd (cov_block layout Z C j j) = true)).
Proof.
  split; [|split; [|split]].
  - intros i j Hn. unfold indiv_compat. rewrite Hn. reflexivity.
  - intros Hs Hpd. unfold data_association. rewrite Hs, first_non_pd_None
      by exact Hpd.
    destruct AH as [[h d] n]. eexists. reflexivity.
  - intros r H Hm. pose proof (association_hypothesis_pjc Hm) as Hp.
    apply data_association_inr in H as [_ [_ ->]]. split; [reflexivity|].
    exact Hp.
  - intros k. unfold data_association.
    destruct (check_shapes _ _ _ _ _) eqn:Hs; [discriminate|].
    destruct (first_non_pd _ _ _ _) as [j|] eqn:Hf;
      [|destruct AH as [[h d] n]; discriminate].
    intros H. injection H as ->.
    unfold first_non_pd in Hf.
    pose proof (find_seq_first _ _ _ _ Hf) as Hfirst.
    apply find_some in Hf as [Hin Hneg]. apply in_seq in Hin.
    split; [reflexivity|]. split; [unfold nPreds; lia|].
    split; [destruct (is_pd _); [discriminate | reflexivity]|].
    intros j Hj. specialize (Hfirst j ltac:(lia)).
    cbv beta in Hfirst. destruct (is_pd (cov_block layout Z C j j)); [reflexivity | discriminate].
Qed.

(** C5: with no observation or no prediction and otherwise valid inputs,
    the query succeeds with no association, [N x M] matrices (one of the
    sizes being zero) and [M] zero counts. *)
Theorem data_association_empty_inputs :
  (nObs Z = 0 \/ nPreds Y = 0)%nat ->
  check_shapes layout Z Y C predictions_IDs = None ->
  (forall j, (j < nPreds Y)%nat -> is_pd (cov_block layout Z C j j) = true) ->
  exists r, DA = inr r
  /\ associations r = []
  /\ mrows (indiv_distances r) = nPreds Y
  /\ mcols (indiv_distances r) = nObs Z
  /\ mrows (indiv_compatibility r) = nPreds Y
  /\ mcols (indiv_compatibility r) = nObs Z
  /\ indiv_compatibility_counts r = repeat 0%nat (nObs Z).
Proof.
  intros Hempty Hs Hpd.
  assert (Hh : fst (fst AH) = []).
  { destruct Hempty as [HM|HN].
    - destruct method; simpl.
      + unfold nearest_neighbor. rewrite HM. reflexivity.
      + unfold JCBB. rewrite HM. rewrite jcbb_O. simpl.
        destruct (better _ _ _ _ _ _ _ _); reflexivity.
    - pose proof association_hypothesis_wf as [_ [_ Hall]].
      destruct (fst (fst AH)) as [|p l]; [reflexivity|].
      inversion Hall as [|? ? [Hp _] _]. lia. }
  assert (Hcounts : build_indiv_compatibility_counts chi2inv ln layout Z Y C
                      metric chi2quantile thr = repeat 0%nat (nObs Z)).
  { unfold build_indiv_compatibility_counts.
    destruct Hempty as [HM|HN].
    - rewrite HM. reflexivity.
    - rewrite HN. simpl. rewrite map_const, length_seq. reflexivity. }
  unfold data_association. rewrite Hs, first_non_pd_None by exact Hpd.
  destruct AH as [[h d] n] eqn:Hah. simpl in Hh. subst h.
  eexists. split; [reflexivity|]. cbn.
  repeat split; try reflexivity. exact Hcounts.
Qed.

(** C8 (amended): the node counter is [0] for NN; for JCBB, with at least
    one prediction ([N >= 1]), it is at most [(N+1)^M] (every call of the
    search, the root included, counts a node). *)
Theorem data_association_nodes_bound r :
  data_association chi2inv ln layout Z Y C method metric chi2quantile
    DAT_ASOC_USE_KDTREE predictions_IDs ctm thr = inr r ->
  (method = assocNN -> nNodesExploredInJCBB r = 0%nat)
  /\ (method = assocJCBB -> (1 <= nPreds Y)%nat ->
      (nNodesExploredInJCBB r <= Nat.pow (Datatypes.S (nPreds Y)) (nObs Z))%nat).
Proof.
  intros H. apply data_association_inr in H as [_ [_ ->]].
  cbn [nNodesExploredInJCBB]. split; intros ->; [reflexivity|].
  intros HN. simpl. unfold JCBB.
  pose proof (jcbb_nodes_pow chi2inv ln layout Z Y C metric chi2quantile
                ctm thr (nObs Z) 0 [] jcbb_init HN) as Hb.
  simpl in Hb. exact Hb.
Qed.

End Results.

(* ------------------------------------------------------------------ *)
(** ** Comparing runs *)

Lemma mat_get_build_any {T} (d : T) r c (f : nat -> nat -> T) j i :
  mat_get d (mkMatrix r c (map (fun j => map (fun i => f i j) (seq 0 c))
                             (seq 0 r))) j i
  = if Nat.ltb j r then (if Nat.ltb i c then f i j else d) else d.
Proof.
  unfold mat_get. cbn [mdata]. rewrite nth_map_seq.
  destruct (Nat.ltb j r); [|destruct i; reflexivity].
  rewrite nth_map_seq. reflexivity.
Qed.

Lemma indiv_compat_monotone chi2inv ln layout Z Y C metric q1 q2 thr i j :
  (forall k, chi2inv q1 k <= chi2inv q2 k) ->
  indiv_compat chi2inv ln layout Z Y C metric q1 thr i j = true ->
  indiv_compat chi2inv ln layout Z Y C metric q2 thr i j = true.
Proof.
  intros Hmono. unfold indiv_compat.
  destruct (indiv_stat _ _ _ _ _ _ _ _) as [s|]; [|discriminate].
  destruct metric; simpl; [|auto].
  rewrite !Qle_bool_iff. intros Hs. eapply Qle_trans; [exact Hs | apply Hmono].
Qed.

Lemma chi2inv_90_le_99 k : chi2inv_90 k <= chi2inv_99 k.
Proof.
  destruct k as [|[|[|[|[|k]]]]]; try (vm_compute; discriminate).
  unfold chi2inv_90, chi2inv_99, Qle, Qmult, inject_Z. simpl. lia.
Qed.

Lemma chi2inv_step_monotone p1 p2 k :
  0 < p1 -> p1 <= p2 -> p2 < 1 -> chi2inv_step p1 k <= chi2inv_step p2 k.
Proof.
  intros _ H12 _. unfold chi2inv_step.
  destruct (Qle_bool p1 (9 # 10)) eqn:H1, (Qle_bool p2 (9 # 10)) eqn:H2;
    try apply Qle_refl; [apply chi2inv_90_le_99|].
  apply Qle_bool_iff in H2. apply not_true_iff_false in H1.
  exfalso. apply H1. apply Qle_bool_iff. eapply Qle_trans; eassumption.
Qed.

(** C6: with a [chi2inv] non-decreasing in the probability on [(0, 1)],
    every pair marked compatible at quantile [q1] is marked compatible at
    any quantile [q2] with [0 < q1 <= q2 < 1], all else being equal. *)
Theorem data_association_compat_monotone chi2inv ln layout Z Y C method
  metric DAT_ASOC_USE_KDTREE predictions_IDs ctm thr q1 q2 r1 r2 :
  (forall p1 p2 k, 0 < p1 -> p1 <= p2 -> p2 < 1 ->
                   chi2inv p1 k <= chi2inv p2 k) ->
  0 < q1 -> q1 <= q2 -> q2 < 1 ->
  data_association chi2inv ln layout Z Y C method metric q1
    DAT_ASOC_USE_KDTREE predictions_IDs ctm thr = inr r1 ->
  data_association chi2inv ln layout Z Y C method metric q2
    DAT_ASOC_USE_KDTREE predictions_IDs ctm thr = inr r2 ->
  forall i j, mat_get false (indiv_compatibility r1) j i = true ->
              mat_get false (indiv_compatibility r2) j i = true.
Proof.
  intros Hmono Hq1 H12 Hq2 H1 H2 i j.
  apply data_association_inr in H1 as [_ [_ ->]].
  apply data_association_inr in H2 as [_ [_ ->]].
  cbn [indiv_compatibility]. unfold build_indiv_compatibility.
  rewrite !mat_get_build_any.
  destruct (Nat.ltb j (nPreds Y)), (Nat.ltb i (nObs Z)); auto.
  apply indiv_compat_monotone. intros k. apply Hmono; auto.
Qed.

(** C7 (amended): JCBB returns at least as many associations as NN on the
    same query whenever every prefix of the NN hypothesis passes the joint
    gate (JCBB returns a largest jointly compatible hypothesis; NN may
    return one that is not jointly compatible). *)
Theorem data_association_jcbb_dominates_nn chi2inv ln layout Z Y C metric
  chi2quantile DAT_ASOC_USE_KDTREE predictions_IDs ctm thr r_nn r_jcbb :
  prefixes_jointly_compatible chi2inv ln layout Z Y C chi2quantile ctm thr
    (nearest_neighbor chi2inv ln layout Z Y C metric chi2quantile thr) ->
  data_association chi2inv ln layout Z Y C assocNN metric chi2quantile
    DAT_ASOC_USE_KDTREE predictions_IDs ctm thr = inr r_nn ->
  data_association chi2inv ln layout Z Y C assocJCBB metric chi2quantile
    DAT_ASOC_USE_KDTREE predictions_IDs ctm thr = inr r_jcbb ->
  (length (associations r_nn) <= length (associations r_jcbb))%nat.
Proof.
  intros Hpjc H1 H2.
  apply data_association_inr in H1 as [_ [_ ->]].
  apply data_association_inr in H2 as [_ [_ ->]].
  cbn [associations fst association_hypothesis]. rewrite !length_map.
  unfold nearest_neighbor in *. unfold JCBB.
  destruct (nn_loop_path chi2inv ln layout Z Y C metric chi2quantile ctm thr
              (nObs Z) 0 []) as [E [HE Hpath]].
  rewrite HE in Hpjc |- *. simpl app in *.
  apply (jcbb_optimal chi2inv ln layout Z Y C metric chi2quantile ctm thr
           (nObs Z) 0 [] jcbb_init E).
  apply Hpath. intros k Hk. apply Hpjc. simpl in Hk. lia.
Qed.

(** C9: a default-constructed result, and any result after [clear()], has
    no association, a zero distance, empty [0 x 0] matrices, no count and
    a zero node counter. *)
Theorem TDataAssociationResults_default_clear :
  (associations TDataAssociationResults_default = []
   /\ distance TDataAssociationResults_default = 0
   /\ mrows (indiv_distances TDataAssociationResults_default) = 0%nat
   /\ mcols (indiv_distances TDataAssociationResults_default) = 0%nat
   /\ mdata (indiv_distances TDataAssociationResults_default) = []
   /\ mrows (indiv_compatibility TDataAssociationResults_default) = 0%nat
   /\ mcols (indiv_compatibility TDataAssociationResults_default) = 0%nat
   /\ mdata (indiv_compatibility TDataAssociationResults_default) = []
   /\ indiv_compatibility_counts TDataAssociationResults_default = []
   /\ nNodesExploredInJCBB TDataAssociationResults_default = 0%nat)
  /\ (forall r,
      associations (clear r) = []
      /\ distance (clear r) = 0
      /\ mrows (indiv_distances (clear r)) = 0%nat
      /\ mcols (indiv_distances (clear r)) = 0%nat
      /\ mdata (indiv_distances (clear r)) = []
      /\ mrows (indiv_compatibility (clear r)) = 0%nat
      /\ mcols (indiv_compatibility (clear r)) = 0%nat
      /\ mdata (indiv_compatibility (clear r)) = []
      /\ indiv_compatibility_counts (clear r) = []
      /\ nNodesExploredInJCBB (clear r) = 0%nat).
Proof.
  split; [repeat split | intros r; repeat split].
Qed.

(* ------------------------------------------------------------------ *)
(** ** Concrete runs *)

(** Witness for C1: [data_association_partial_injection] on two paired
    observations with raw prediction indices. *)
Lemma data_association_partial_injection_witness :
  run Z_two Y_two C_two assocJCBB (99 # 100) []
  = inr (result_of (run Z_two Y_two C_two assocJCBB (99 # 100) []))
  /\ NoDup (map snd (associations
       (result_of (run Z_two Y_two C_two assocJCBB (99 # 100) [])))).
Proof.
  assert (H : run Z_two Y_two C_two assocJCBB (99 # 100) []
              = inr (result_of (run Z_two Y_two C_two assocJCBB (99 # 100) [])))
    by (vm_compute; reflexivity).
  split; [exact H|].
  exact (proj2 (proj2 (data_association_partial_injection chi2inv_step
    ln_unused IndependentPredictions Z_two Y_two C_two assocJCBB metricMaha
    (99 # 100) false [] metricMaha 0 _ H)) (NoDup_nil _)).
Defined.

(** Counterexample to C1 as stated: with the repeated external IDs
    [[7; 7]] both observations are associated with the value [7]. *)
Lemma data_association_partial_injection_counterexample :
  run Z_two Y_two C_two assocJCBB (99 # 100) [7; 7]%nat
  = inr (result_of (run Z_two Y_two C_two assocJCBB (99 # 100) [7; 7]%nat))
  /\ associations (result_of (run Z_two Y_two C_two assocJCBB (99 # 100)
                                [7; 7]%nat)) = [(0, 7); (1, 7)]%nat
  /\ ~ NoDup (map snd (associations
         (result_of (run Z_two Y_two C_two assocJCBB (99 # 100)
                       [7; 7]%nat)))).
Proof.
  split; [vm_compute; reflexivity|].
  assert (H : associations (result_of (run Z_two Y_two C_two assocJCBB
                (99 # 100) [7; 7]%nat)) = [(0, 7); (1, 7)]%nat)
    by (vm_compute; reflexivity).
  split; [exact H|]. rewrite H. simpl.
  intros Hnd. inversion Hnd as [|x l Hx _]. apply Hx. left. reflexivity.
Qed.

(** Witness for C2: [data_association_indiv_layout] on one observation and
    two predictions, read at observation [0] and prediction [1]. *)
Lemma data_association_indiv_layout_witness :
  run Z_one Y_two C_two assocNN (99 # 100) []
  = inr (result_of (run Z_one Y_two C_two assocNN (99 # 100) []))
  /\ mrows (indiv_distances
       (result_of (run Z_one Y_two C_two assocNN (99 # 100) []))) = 2%nat
  /\ mat_get false (indiv_compatibility
       (result_of (run Z_one Y_two C_two assocNN (99 # 100) []))) 1 0
     = indiv_compat chi2inv_step ln_unused IndependentPredictions Z_one Y_two
         C_two metricMaha (99 # 100) 0 0 1.
Proof.
  assert (H : run Z_one Y_two C_two assocNN (99 # 100) []
              = inr (result_of (run Z_one Y_two C_two assocNN (99 # 100) [])))
    by (vm_compute; reflexivity).
  pose proof (data_association_indiv_layout chi2inv_step ln_unused
    IndependentPredictions Z_one Y_two C_two assocNN metricMaha (99 # 100)
    false [] metricMaha 0 _ H) as [Hr [_ [_ [_ [_ [_ [Hget _]]]]]]].
  split; [exact H|]. split; [exact Hr|].
  apply (Hget 0%nat 1%nat); vm_compute; reflexivity.
Defined.

(** Counterexample to C2 as stated: one observation ([M = 1]) and two
    predictions ([N = 2]) give a [2 x 1] distance matrix, not [1 x 2]. *)
Lemma data_association_indiv_layout_counterexample :
  run Z_one Y_two C_two assocNN (99 # 100) []
  = inr (result_of (run Z_one Y_two C_two assocNN (99 # 100) []))
  /\ nObs Z_one = 1%nat /\ nPreds Y_two = 2%nat
  /\ mrows (indiv_distances
       (result_of (run Z_one Y_two C_two assocNN (99 # 100) []))) = 2%nat
  /\ mcols (indiv_distances
       (result_of (run Z_one Y_two C_two assocNN (99 # 100) []))) = 1%nat
  /\ ~ (mrows (indiv_distances
          (result_of (run Z_one Y_two C_two assocNN (99 # 100) [])))
        = nObs Z_one
        /\ mcols (indiv_distances
             (result_of (run Z_one Y_two C_two assocNN (99 # 100) [])))
           = nPreds Y_two).
Proof.
  repeat split; try (vm_compute; reflexivity).
  vm_compute. intros [H _]. discriminate.
Qed.

(** Witness for C3: [data_association_ids_roundtrip] with the external
    IDs [[7; 9]]. *)
Lemma data_association_ids_roundtrip_witness :
  run Z_two Y_two C_two assocJCBB (99 # 100) [7; 9]%nat
  = inr (result_of (run Z_two Y_two C_two assocJCBB (99 # 100) [7; 9]%nat))
  /\ Forall (fun a => In (snd a) [7; 9]%nat)
       (associations (result_of (run Z_two Y_two C_two assocJCBB (99 # 100)
                                   [7; 9]%nat))).
Proof.
  assert (H : run Z_two Y_two C_two assocJCBB (99 # 100) [7; 9]%nat
              = inr (result_of (run Z_two Y_two C_two assocJCBB (99 # 100)
                                  [7; 9]%nat)))
    by (vm_compute; reflexivity).
  split; [exact H|].
  refine (proj2 (proj2 (data_association_ids_roundtrip chi2inv_step ln_unused
    IndependentPredictions Z_two Y_two C_two assocJCBB metricMaha (99 # 100)
    false [7; 9]%nat metricMaha 0 _ _ H))).
  discriminate.
Defined.

(** Witness for C5: [data_association_empty_inputs] on three observations
    and no prediction. *)
Lemma data_association_empty_inputs_witness :
  nPreds Y_none = 0%nat
  /\ check_shapes IndependentPredictions Z_three Y_none C_none [] = None
  /\ exists r,
     run Z_three Y_none C_none assocJCBB (99 # 100) [] = inr r
     /\ associations r = []
     /\ mrows (indiv_distances r) = nPreds Y_none
     /\ mcols (indiv_distances r) = nObs Z_three
     /\ mrows (indiv_compatibility r) = nPreds Y_none
     /\ mcols (indiv_compatibility r) = nObs Z_three
     /\ indiv_compatibility_counts r = repeat 0%nat (nObs Z_three).
Proof.
  split; [reflexivity|]. split; [vm_compute; reflexivity|].
  refine (data_association_empty_inputs chi2inv_step ln_unused
    IndependentPredictions Z_three Y_none C_none assocJCBB metricMaha
    (99 # 100) false [] metricMaha 0 _ _ _).
  - right. reflexivity.
  - vm_compute. reflexivity.
  - intros j Hj. unfold nPreds in Hj. simpl in Hj. lia.
Defined.

(** Witness for C6: [data_association_compat_monotone] between the
    quantiles [0.9] and [0.99], at observation [0] and prediction [0]. *)
Lemma data_association_compat_monotone_witness :
  run Z_two Y_two C_two assocJCBB (9 # 10) []
  = inr (result_of (run Z_two Y_two C_two assocJCBB (9 # 10) []))
  /\ run Z_two Y_two C_two assocJCBB (99 # 100) []
     = inr (result_of (run Z_two Y_two C_two assocJCBB (99 # 100) []))
  /\ mat_get false (indiv_compatibility
       (result_of (run Z_two Y_two C_two assocJCBB (9 # 10) []))) 0 0 = true
  /\ mat_get false (indiv_compatibility
       (result_of (run Z_two Y_two C_two assocJCBB (99 # 100) []))) 0 0
     = true.
Proof.
  assert (H1 : run Z_two Y_two C_two assocJCBB (9 # 10) []
               = inr (result_of (run Z_two Y_two C_two assocJCBB (9 # 10) [])))
    by (vm_compute; reflexivity).
  assert (H2 : run Z_two Y_two C_two assocJCBB (99 # 100) []
               = inr (result_of (run Z_two Y_two C_two assocJCBB (99 # 100)
                                   [])))
    by (vm_compute; reflexivity).
  assert (H3 : mat_get false (indiv_compatibility
                 (result_of (run Z_two Y_two C_two assocJCBB (9 # 10) [])))
                 0 0 = true)
    by (vm_compute; reflexivity).
  split; [exact H1|]. split; [exact H2|]. split; [exact H3|].
  refine (data_association_compat_monotone chi2inv_step ln_unused
    IndependentPredictions Z_two Y_two C_two assocJCBB metricMaha false []
    metricMaha 0 (9 # 10) (99 # 100) _ _ chi2inv_step_monotone _ _ _ H1 H2
    0%nat 0%nat H3); vm_compute;
    first [reflexivity | intros Habs; discriminate Habs].
Defined.

(** Witness for C7: [data_association_jcbb_dominates_nn] on two paired
    observations, where the NN hypothesis passes the joint gate. *)
Lemma data_association_jcbb_dominates_nn_witness :
  prefixes_jointly_compatible chi2inv_step ln_unused IndependentPredictions
    Z_two Y_two C_two (99 # 100) metricMaha 0
    (nearest_neighbor chi2inv_step ln_unused IndependentPredictions
       Z_two Y_two C_two metricMaha (99 # 100) 0)
  /\ (length (associations
        (result_of (run Z_two Y_two C_two assocNN (99 # 100) [])))
      <= length (associations
           (result_of (run Z_two Y_two C_two assocJCBB (99 # 100) []))))%nat.
Proof.
  assert (Hp : prefixes_jointly_compatible chi2inv_step ln_unused
    IndependentPredictions Z_two Y_two C_two (99 # 100) metricMaha 0
    (nearest_neighbor chi2inv_step ln_unused IndependentPredictions
       Z_two Y_two C_two metricMaha (99 # 100) 0)).
  { intros k Hk.
    assert (Hl : length (nearest_neighbor chi2inv_step ln_unused
                   IndependentPredictions Z_two Y_two C_two metricMaha
                   (99 # 100) 0) = 2%nat) by (vm_compute; reflexivity).
    rewrite Hl in Hk.
    destruct k as [|[|[|k]]]; try lia; vm_compute; reflexivity. }
  split; [exact Hp|].
  refine (data_association_jcbb_dominates_nn chi2inv_step ln_unused
    IndependentPredictions Z_two Y_two C_two metricMaha (99 # 100) false []
    metricMaha 0 _ _ Hp _ _); vm_compute; reflexivity.
Defined.

(** Counterexample to C7 as stated: NN pairs both far apart observations,
    whose joint statistic [12] exceeds the 2-dof gate, while JCBB keeps a
    single pairing. *)
Lemma data_association_jcbb_dominates_nn_counterexample :
  run Z_far Y_far C_far assocNN (99 # 100) []
  = inr (result_of (run Z_far Y_far C_far assocNN (99 # 100) []))
  /\ run Z_far Y_far C_far assocJCBB (99 # 100) []
     = inr (result_of (run Z_far Y_far C_far assocJCBB (99 # 100) []))
  /\ length (associations
       (result_of (run Z_far Y_far C_far assocNN (99 # 100) []))) = 2%nat
  /\ length (associations
       (result_of (run Z_far Y_far C_far assocJCBB (99 # 100) []))) = 1%nat.
Proof. repeat split; vm_compute; reflexivity. Qed.

(** Witness for C8: [data_association_nodes_bound] on two paired
    observations with JCBB. *)
Lemma data_association_nodes_bound_witness :
  run Z_two Y_two C_two assocJCBB (99 # 100) []
  = inr (result_of (run Z_two Y_two C_two assocJCBB (99 # 100) []))
  /\ (1 <= nPreds Y_two)%nat
  /\ (nNodesExploredInJCBB
        (result_of (run Z_two Y_two C_two assocJCBB (99 # 100) []))
      <= Nat.pow (Datatypes.S (nPreds Y_two)) (nObs Z_two))%nat.
Proof.
  assert (H : run Z_two Y_two C_two assocJCBB (99 # 100) []
              = inr (result_of (run Z_two Y_two C_two assocJCBB (99 # 100) [])))
    by (vm_compute; reflexivity).
  assert (HN : (1 <= nPreds Y_two)%nat) by (vm_compute; lia).
  split; [exact H|]. split; [exact HN|].
  exact (proj2 (data_association_nodes_bound chi2inv_step ln_unused
    IndependentPredictions Z_two Y_two C_two assocJCBB metricMaha (99 # 100)
    false [] metricMaha 0 _ H) eq_refl HN).
Defined.

(** Counterexample to C8 as stated: three observations and no prediction
    explore three nodes, above [(0+1)^3 = 1]; and on two paired
    observations, lowering the quantile from [0.99] to [0.9] raises the
    node count from [3] to [4]. *)
Lemma data_association_nodes_bound_counterexample :
  (run Z_three Y_none C_none assocJCBB (99 # 100) []
   = inr (result_of (run Z_three Y_none C_none assocJCBB (99 # 100) []))
   /\ nNodesExploredInJCBB
        (result_of (run Z_three Y_none C_none assocJCBB (99 # 100) []))
      = 3%nat
   /\ Nat.pow (nPreds Y_none + 1) (nObs Z_three) = 1%nat)
  /\ (run Z_two Y_two C_two assocJCBB (99 # 100) []
      = inr (result_of (run Z_two Y_two C_two assocJCBB (99 # 100) []))
      /\ run Z_two Y_two C_two assocJCBB (9 # 10) []
         = inr (result_of (run Z_two Y_two C_two assocJCBB (9 # 10) []))
      /\ nNodesExploredInJCBB
           (result_of (run Z_two Y_two C_two assocJCBB (99 # 100) []))
         = 3%nat
      /\ nNodesExploredInJCBB
           (result_of (run Z_two Y_two C_two assocJCBB (9 # 10) []))
         = 4%nat).
Proof. repeat split; vm_compute; reflexivity. Qed.

(* ------------------------------------------------------------------ *)
(** ** Drawing many samples *)

Module SamplingTheorems.
Local Open Scope nat_scope.
Import Sampling.

Section SamplingProofs.
Variables TDATA RNG R : Type.
Variable drawSingleSample : RNG -> TDATA -> TDATA * RNG.
Variable asVectorVal : TDATA -> list R.
Variable TDATA_default : TDATA.

Local Abbreviation loop := (draw_loop TDATA RNG R drawSingleSample asVectorVal).
Local Abbreviation dseq := (draw_sequence TDATA RNG drawSingleSample).
Local Abbreviation many :=
  (drawManySamples TDATA RNG R drawSingleSample asVectorVal TDATA_default).

Lemma length_vector_set {A} i (x : A) v : length (vector_set i x v) = length v.
Proof.
  revert i; induction v as [|h t IH]; intros [|i]; simpl; auto.
Qed.

Lemma firstn_vector_set {A} i (x : A) v :
  (i < length v)%nat -> firstn (Datatypes.S i) (vector_set i x v) = firstn i v ++ [x].
Proof.
  revert i; induction v as [|h t IH]; intros [|i] Hi; simpl in *; try lia;
    [reflexivity|].
  rewrite IH by lia. reflexivity.
Qed.

Lemma draw_loop_spec n : forall i rng pnt out,
  length out = (i + n)%nat ->
  loop i n rng pnt out
  = (firstn i out ++ map asVectorVal (fst (dseq n rng pnt)), snd (dseq n rng pnt)).
Proof.
  induction n as [|n IH]; intros i rng pnt out Hlen; simpl.
  - rewrite app_nil_r, firstn_all2 by lia. reflexivity.
  - destruct (drawSingleSample rng pnt) as [p' r'].
    rewrite IH by (rewrite length_vector_set; lia).
    destruct (dseq n r' p') as [ps r]. cbn [fst snd map].
    rewrite firstn_vector_set by lia. rewrite <- app_assoc. reflexivity.
Qed.

Lemma length_draw_sequence n : forall rng pnt, length (fst (dseq n rng pnt)) = n.
Proof.
  induction n as [|n IH]; intros rng pnt; simpl; [reflexivity|].
  destruct (drawSingleSample rng pnt) as [p' r'].
  specialize (IH r' p'). destruct (dseq n r' p') as [ps r]. simpl in *.
  rewrite IH. reflexivity.
Qed.

Lemma length_resize {A} n (d : A) l : length (resize n d l) = n.
Proof.
  unfold resize. rewrite length_app, repeat_length, length_firstn. lia.
Qed.

Lemma drawManySamples_spec N rng out :
  many N rng out
  = (map asVectorVal (fst (dseq N rng TDATA_default)),
     snd (dseq N rng TDATA_default)).
Proof.
  unfold drawManySamples. rewrite draw_loop_spec by apply length_resize.
  reflexivity.
Qed.

(** X1: [drawManySamples(N, outSamples)] leaves exactly [N] vectors in
    [outSamples], the [i]-th being [asVectorVal] of the [i+1]-th of [N]
    successive [drawSingleSample] calls started from a default-constructed
    sample; the previous content of [outSamples] plays no part, and the
    generator ends where those [N] calls leave it. *)
Theorem drawManySamples_overwrites N rng out :
  drawManySamples TDATA RNG R drawSingleSample asVectorVal TDATA_default
    N rng out
  = (map asVectorVal
       (fst (draw_sequence TDATA RNG drawSingleSample N rng TDATA_default)),
     snd (draw_sequence TDATA RNG drawSingleSample N rng TDATA_default))
  /\ length (fst (drawManySamples TDATA RNG R drawSingleSample asVectorVal
                   TDATA_default N rng out)) = N.
Proof.
  rewrite drawManySamples_spec. split; [reflexivity|].
  simpl. rewrite length_map. apply length_draw_sequence.
Qed.

Section Oblivious.
(** [drawSingleSample] does not read the previous value of its output
    argument. *)
Hypothesis oblivious : forall rng p p', drawSingleSample rng p = drawSingleSample rng p'.

Lemma draw_sequence_oblivious n : forall rng p p', dseq n rng p = dseq n rng p'.
Proof.
  destruct n as [|n]; intros rng p p'; simpl; [reflexivity|].
  rewrite (oblivious rng p p'). reflexivity.
Qed.

Lemma draw_sequence_add a : forall b rng p p0,
  dseq (a + b) rng p
  = (fst (dseq a rng p) ++ fst (dseq b (snd (dseq a rng p)) p0),
     snd (dseq b (snd (dseq a rng p)) p0)).
Proof.
  induction a as [|a IH]; intros b rng p p0; simpl.
  - rewrite (draw_sequence_oblivious b rng p p0).
    destruct (dseq b rng p0); reflexivity.
  - destruct (drawSingleSample rng p) as [p' r'].
    rewrite (IH b r' p' p0).
    destruct (dseq a r' p') as [ps r]. simpl.
    destruct (dseq b r p0). reflexivity.
Qed.
End Oblivious.

(** X2: when [drawSingleSample] does not read the previous value of its
    output argument, drawing [a + b] samples gives the same samples and
    generator state as drawing [a] samples and then [b] more from where the
    generator was left (whatever vectors are passed in). *)
Theorem drawManySamples_split a b rng out out' :
  (forall rng p p', drawSingleSample rng p = drawSingleSample rng p') ->
  let many := drawManySamples TDATA RNG R drawSingleSample asVectorVal
                TDATA_default in
  many (a + b) rng out
  = (fst (many a rng out) ++ fst (many b (snd (many a rng out)) out'),
     snd (many b (snd (many a rng out)) out')).
Proof.
  intros Hobl many. unfold many. rewrite !drawManySamples_spec.
  rewrite (draw_sequence_add Hobl a b rng TDATA_default TDATA_default).
  simpl. rewrite map_app. reflexivity.
Qed.

End SamplingProofs.

(** Witness for X2: with the counter sampler, five samples are two and then
    three. *)
Lemma drawManySamples_split_witness :
  (forall rng p p' : nat, counter_sample rng p = counter_sample rng p')
  /\ drawManySamples nat nat nat counter_sample (fun p => [p]) 0%nat (2 + 3) 10 [[7%nat]]
     = ([[10]; [11]; [12]; [13]; [14]], 15%nat).
Proof.
  assert (Hobl : forall rng p p' : nat,
                   counter_sample rng p = counter_sample rng p')
    by reflexivity.
  split; [exact Hobl|].
  rewrite (drawManySamples_split nat nat nat counter_sample (fun p => [p]) 0%nat
             2 3 10 [[7%nat]] [] Hobl).
  vm_compute. reflexivity.
Defined.

End SamplingTheorems.

(* ------------------------------------------------------------------ *)
(** ** The clamp of [getCovarianceEntropy] beyond [epsilon] and on NaN *)

Module EntropyPassThrough.
Import Entropy EntropyFacts.
Local Open Scope float_scope.

Lemma SFeqb_refl_not_nan x : x <> S754_nan -> SFeqb x x = true.
Proof.
  intros Hx. unfold SFeqb.
  destruct x as [s|s| |s m e]; try destruct s; cbn [SFcompare];
    try reflexivity; [contradiction Hx; reflexivity| |];
    rewrite Z.compare_refl, Pos.compare_cont_spec, Pos.compare_refl;
    reflexivity.
Qed.

Lemma is_nan_Prim2SF x : is_nan x = true <-> Prim2SF x = S754_nan.
Proof.
  unfold is_nan. rewrite eqb_spec. split.
  - intros H. destruct (Prim2SF x) eqn:Hx; try reflexivity;
      rewrite SFeqb_refl_not_nan in H by discriminate; discriminate.
  - intros ->. reflexivity.
Qed.

Lemma log_argument_same det :
  is_nan det = true \/ (epsilon <=? det) = true -> log_argument det = det.
Proof.
  intros H. unfold log_argument, std_max.
  replace (det <? epsilon) with false; [reflexivity|].
  symmetry. rewrite ltb_spec. unfold SFltb.
  destruct H as [H|H].
  - apply is_nan_Prim2SF in H. rewrite H. reflexivity.
  - rewrite leb_spec in H. unfold SFleb in H.
    rewrite SFcompare_swap.
    destruct (SFcompare (Prim2SF epsilon) (Prim2SF det)) as [[]|];
      try discriminate; reflexivity.
Qed.

(** X3: [std::max(det, epsilon)] hands [det] itself to [log] when [det] is
    NaN or at least [epsilon]: the clamp only replaces values below
    [epsilon], and lets a NaN determinant through. *)
Theorem getCovarianceEntropy_log_argument_unchanged det :
  is_nan det = true \/ (epsilon <=? det) = true -> log_argument det = det.
Proof. exact (log_argument_same det). Qed.

(** Witness for X3: a determinant of [1]. *)
Lemma getCovarianceEntropy_log_argument_unchanged_witness :
  (epsilon <=? 1) = true /\ log_argument 1 = 1.
Proof.
  assert (H : (epsilon <=? 1) = true) by (vm_compute; reflexivity).
  split; [exact H|].
  exact (getCovarianceEntropy_log_argument_unchanged 1 (or_intror H)).
Defined.

(** X4: with a [log] that maps NaN to NaN (as the C library's does), a NaN
    determinant makes [getCovarianceEntropy] return NaN, whatever
    [STATE_LEN]: the clamp does not make the entropy finite in that case. *)
Theorem getCovarianceEntropy_nan_det (log : float -> float) STATE_LEN det :
  (forall x, is_nan x = true -> is_nan (log x) = true) ->
  is_nan det = true -> is_nan (getCovarianceEntropy log STATE_LEN det) = true.
Proof.
  intros Hlog Hdet. unfold getCovarianceEntropy.
  rewrite (log_argument_same det (or_introl Hdet)).
  apply Hlog, is_nan_Prim2SF in Hdet.
  apply is_nan_Prim2SF. rewrite mul_spec, add_spec, Hdet.
  unfold SF64mul, SF64add, SFmul, SFadd.
  destruct (Prim2SF (STATE_LEN + STATE_LEN * ln_2PI)); reflexivity.
Qed.

(** Witness for X4: the identity as [log], [STATE_LEN = 3], a NaN
    determinant. *)
Lemma getCovarianceEntropy_nan_det_witness :
  is_nan nan = true /\ is_nan (getCovarianceEntropy (fun x => x) 3 nan) = true.
Proof.
  assert (Hn : is_nan nan = true) by (vm_compute; reflexivity).
  split; [exact Hn|].
  exact (getCovarianceEntropy_nan_det (fun x => x) 3 nan (fun x Hx => Hx) Hn).
Defined.

End EntropyPassThrough.
